(** * Philips Pets Series integration: the refresh coordinator, setup and unload

    A shallow embedding of [custom_components/Philips_Pet_Series/__init__.py]
    and the properties of its data-update coordinator.

    The Python coroutines are written in a state-and-exception monad that
    also records every outbound call together with its response.  The
    collaborators (the [petsseries] client library and the Home Assistant
    platform) are not part of the repository: they appear as records of
    operations over an abstract world [W], so every statement below holds
    for every behaviour of the collaborators. *)

From Stdlib Require Import QArith.
From stdpp Require Import gmap strings list fin_maps.

Set Default Proof Using "Type".

(** ** Python values and exceptions *)

(** The values that occur in the dictionaries handled by the component;
    [VObject] is any other object (a nested dictionary, a list), with its
    truthiness. *)
Inductive value :=
| VNone
| VBool (b : bool)
| VInt (z : Z)
| VFloat (q : Q)
| VStr (s : string)
| VObject (repr : string) (nonempty : bool).

(** Python truthiness, as used by [if x] and [all(...)]. *)
Definition truthy (v : value) : bool :=
  match v with
  | VNone => false
  | VBool b => b
  | VInt z => negb (z =? 0)%Z
  | VFloat q => negb (Qeq_bool q 0)
  | VStr s => negb (String.eqb s "")
  | VObject _ nonempty => nonempty
  end.

(** Instances of [Exception].  [Error] stands for whatever a collaborator
    raises, identified by its text [str(e)]; the other constructors are the
    exceptions the component itself raises or provokes.  [raise X(msg) from e]
    records [e] as the cause. *)
Inductive exn :=
| Error (text : string)
| UnboundLocalError (name : string)
| KeyError (key : string)
| UpdateFailed (message : string) (cause : exn)
| ConfigEntryAuthFailed (message : string) (cause : exn).

(** [str(e)]. *)
Definition str_exn (e : exn) : string :=
  match e with
  | Error text => text
  | UnboundLocalError name =>
      "cannot access local variable '" +:+ name
        +:+ "' where it is not associated with a value"
  | KeyError key => "'" +:+ key +:+ "'"
  | UpdateFailed message _ => message
  | ConfigEntryAuthFailed message _ => message
  end.

Inductive result (A : Type) :=
| Ok (a : A)
| Raise (e : exn).
Arguments Ok {A} a.
Arguments Raise {A} e.

(** [sub in s] on Python strings. *)
Fixpoint contains (sub s : string) : bool :=
  String.prefix sub s
  || match s with
     | EmptyString => false
     | String _ s' => contains sub s'
     end.

(** ** The data model of the client library *)

Module Home.
Record t := { id : string; name : string }.
End Home.

Module Device.
Record t := { id : string; name : string }.
End Device.

Record Event := { event_id : string; event_type_name : string }.
Record Meal := { meal_id : string; meal_name : string }.

(** [datetime(year, month, day, tzinfo=timezone(timedelta(hours=h)))]; the
    time of day defaults to midnight. *)
Record datetime := {
  year : Z; month : Z; day : Z;
  hour : Z; minute : Z; second : Z;
  utcoffset_hours : Z }.

Definition datetime_ymd (y m d tz : Z) : datetime :=
  {| year := y; month := m; day := d;
     hour := 0; minute := 0; second := 0; utcoffset_hours := tz |}.

(** An element of [Event.get_event_types()], seen through the three tests
    the coordinator applies to it: it is a [str]; or it has a [value]
    attribute (an [Enum] member); or it is anything else.  [str_] is the
    text of [str(event_type)]. *)
Inductive event_type :=
| ETStr (s : string)
| ETValue (value_ : string) (str_ : string)
| ETOther (str_ : string).

Definition str_event_type (et : event_type) : string :=
  match et with
  | ETStr s => s
  | ETValue _ str_ => str_
  | ETOther str_ => str_
  end.

(** [homeassistant.const.Platform], the members the component forwards. *)
Inductive Platform := SWITCH | SENSOR | SELECT | NUMBER | BUTTON | CALENDAR.

Definition PLATFORMS : list Platform :=
  [SWITCH; SENSOR; SELECT; NUMBER; BUTTON; CALENDAR].

(** [timedelta(minutes=5)], in seconds. *)
Definition SCAN_INTERVAL : Q := 5 * 60.

(** The values of the mapping returned by a refresh. *)
Inductive snapshot_value :=
| SHomes (l : list Home.t)
| SDevices (l : list Device.t)
| SMeals (l : list Meal)
| SEvents (m : gmap string (list Event))
| SEventTypes (l : list event_type)
| SSettings (m : gmap string (gmap string value))
| SBase (m : gmap string value).

(** Every outbound call with its arguments and its outcome, in program
    order. *)
Inductive call :=
| initialize_ev (r : result unit)
| get_homes_ev (r : result (list Home.t))
| get_devices_ev (home : Home.t) (r : result (list Device.t))
| get_events_ev (home : Home.t) (from_date to_date : datetime)
    (types : string) (r : result (list Event))
| get_settings_ev (home : Home.t) (device_id : string)
    (r : result (gmap string value))
| get_tuya_status_ev (r : result value)
| get_meals_ev (home : Home.t) (r : result (list Meal))
| close_ev (r : result unit)
| sleep_ev (delay : Q)
| first_refresh_ev (r : result unit)
| forward_entry_setups_ev (entry_id : string) (platforms : list Platform)
    (r : result unit)
| unload_platforms_ev (entry_id : string) (platforms : list Platform)
    (r : result bool).

Section Component.

(** The state of everything outside the component: the vendor's cloud,
    the client's session and tokens, the local device, the platform. *)
Context {W : Type}.

(** The name space under which the component keeps its state in
    [hass.data]; defined in [const.py]. *)
Variable DOMAIN : string.

(** [Event.get_event_types()], the fixed enumeration of the library. *)
Variable get_event_types : list event_type.

(** [petsseries.PetsSeriesClient]: [tuya_client] is the truthiness of the
    attribute the constructor sets from the credentials; every operation
    may change the world and may raise.  [get_settings] answers with a new
    dictionary on every call, so the item assignment of the coordinator on
    it is an update of the entry it has just stored. *)
Record PetsSeriesClient := {
  tuya_client : bool;
  initialize : W → W * result unit;
  get_homes : W → W * result (list Home.t);
  get_devices : Home.t → W → W * result (list Device.t);
  get_events :
    Home.t → datetime → datetime → string → W → W * result (list Event);
  get_settings : Home.t → string → W → W * result (gmap string value);
  get_tuya_status : W → W * result value;
  get_meals : Home.t → W → W * result (list Meal);
  close : W → W * result unit }.

Record PhilipsPetsSeriesDataUpdateCoordinator := {
  _client : PetsSeriesClient;
  delay_between_calls : Q;
  update_interval : Q }.

(** The dictionary [{"client": client, "coordinator": coordinator}]. *)
Record entry_state := {
  entry_client : PetsSeriesClient;
  entry_coordinator : PhilipsPetsSeriesDataUpdateCoordinator }.

(** [hass.data] restricted to the tables of components: name space, then
    entry id. *)
Record state := {
  world : W;
  hass_data : gmap string (gmap string entry_state) }.

(** ** The monad of coroutines *)

Definition M (A : Type) : Type := state → state * list call * result A.

Definition ret {A} (a : A) : M A := λ σ, (σ, [], Ok a).

Definition raise {A} (e : exn) : M A := λ σ, (σ, [], Raise e).

Definition bind {A B} (m : M A) (k : A → M B) : M B :=
  λ σ,
    match m σ with
    | (σ1, tr1, Ok a) =>
        match k a σ1 with
        | (σ2, tr2, r) => (σ2, tr1 ++ tr2, r)
        end
    | (σ1, tr1, Raise e) => (σ1, tr1, Raise e)
    end.

(** [try: m except Exception as err: h err].  Every [exn] is an instance
    of [Exception]; the cancellation of the task, which [except Exception]
    lets through, is not an outcome of the model. *)
Definition try_except {A} (m : M A) (h : exn → M A) : M A :=
  λ σ,
    match m σ with
    | (σ1, tr1, Ok a) => (σ1, tr1, Ok a)
    | (σ1, tr1, Raise err) =>
        match h err σ1 with
        | (σ2, tr2, r) => (σ2, tr1 ++ tr2, r)
        end
    end.

(** An awaited operation of a collaborator. *)
Definition await {A} (op : W → W * result A) (ev : result A → call) : M A :=
  λ σ,
    match op (world σ) with
    | (w', r) => ({| world := w'; hass_data := hass_data σ |}, [ev r], r)
    end.

(** [await asyncio.sleep(delay)]. *)
Definition sleep (delay : Q) : M unit := λ σ, (σ, [sleep_ev delay], Ok tt).

Definition get_hass_data : M (gmap string (gmap string entry_state)) :=
  λ σ, (σ, [], Ok (hass_data σ)).

Definition set_hass_data (d : gmap string (gmap string entry_state)) : M unit :=
  λ σ, ({| world := world σ; hass_data := d |}, [], Ok tt).

Notation "x <- m ;; k" := (bind m (λ x, k))
  (at level 100, m at next level, right associativity, only parsing).
Notation "m ;;; k" := (bind m (λ _, k))
  (at level 100, right associativity, only parsing).

(** [for x in xs: acc = body x acc], stopping at the first exception. *)
Fixpoint for_each {A L} (xs : list A) (body : A → L → M L) (acc : L) : M L :=
  match xs with
  | [] => ret acc
  | x :: xs' => acc' <- body x acc ;; for_each xs' body acc'
  end.

(** ** [_async_update_data] *)

(** The local variables that the loops update.  [base_data] is bound only
    once the body of the outer loop has run. *)
Record locals := {
  devices : list Device.t;
  meals : list Meal;
  events_by_home_and_type : gmap string (list Event);
  settings : gmap string (gmap string value);
  base_data : option (gmap string value) }.

Definition from_date : datetime := datetime_ymd 2024 1 1 2.
Definition to_date : datetime := datetime_ymd 2100 1 1 2.

(** The conditional expression of lines 83-91. *)
Definition event_type_str (et : event_type) : string :=
  match et with
  | ETStr s => s
  | ETValue value_ _ => value_
  | ETOther str_ => str_
  end.

(** [f"{home.id}_{event_type_str}"]. *)
Definition key (home : Home.t) (et : event_type) : string :=
  Home.id home +:+ "_" +:+ event_type_str et.

(** The locals before the loop over the homes. *)
Definition no_locals : locals :=
  {| devices := []; meals := []; events_by_home_and_type := ∅;
     settings := ∅; base_data := None |}.

Section Update.

Variable self : PhilipsPetsSeriesDataUpdateCoordinator.

(** Lines 71-101: one event type of one home. *)
Definition event_type_body (home : Home.t) (et : event_type) (l : locals)
  : M locals :=
  home_events <-
    await (get_events (_client self) home from_date to_date (str_event_type et))
      (get_events_ev home from_date to_date (str_event_type et)) ;;
  let l :=
    {| devices := devices l; meals := meals l;
       events_by_home_and_type :=
         <[key home et := home_events]> (events_by_home_and_type l);
       settings := settings l; base_data := base_data l |} in
  sleep (delay_between_calls self) ;;;
  ret l.

Definition set_tuya_status (device_id : string) (v : value) (l : locals)
  : locals :=
  {| devices := devices l; meals := meals l;
     events_by_home_and_type := events_by_home_and_type l;
     settings := alter (<["tuya_status" := v]>) device_id (settings l);
     base_data := base_data l |}.

(** Lines 104-119: one device of one home. *)
Definition device_body (home : Home.t) (device : Device.t) (l : locals)
  : M locals :=
  device_settings <-
    await (get_settings (_client self) home (Device.id device))
      (get_settings_ev home (Device.id device)) ;;
  let l :=
    {| devices := devices l; meals := meals l;
       events_by_home_and_type := events_by_home_and_type l;
       settings := <[Device.id device := device_settings]> (settings l);
       base_data := base_data l |} in
  l <-
    (if tuya_client (_client self) then
       tuya_status <-
         await (get_tuya_status (_client self)) get_tuya_status_ev ;;
       ret (set_tuya_status (Device.id device) tuya_status l)
     else
       ret (set_tuya_status (Device.id device) VNone l)) ;;
  sleep (delay_between_calls self) ;;;
  ret l.

(** Lines 62-135: one home. *)
Definition home_body (event_types : list event_type) (home : Home.t)
  (l : locals) : M locals :=
  home_devices <-
    await (get_devices (_client self) home) (get_devices_ev home) ;;
  let l :=
    {| devices := devices l ++ home_devices; meals := meals l;
       events_by_home_and_type := events_by_home_and_type l;
       settings := settings l; base_data := base_data l |} in
  sleep (delay_between_calls self) ;;;
  l <- for_each event_types (event_type_body home) l ;;
  l <- for_each home_devices (device_body home) l ;;
  home_meals <- await (get_meals (_client self) home) (get_meals_ev home) ;;
  let l :=
    {| devices := devices l; meals := meals l ++ home_meals;
       events_by_home_and_type := events_by_home_and_type l;
       settings := settings l; base_data := base_data l |} in
  base_data' <-
    (let base_data : gmap string value := ∅ in
     if tuya_client (_client self) then
       tuya_status <-
         await (get_tuya_status (_client self)) get_tuya_status_ev ;;
       ret (<["tuya_status" := tuya_status]> base_data)
     else
       ret (<["tuya_status" := VNone]> base_data)) ;;
  let l :=
    {| devices := devices l; meals := meals l;
       events_by_home_and_type := events_by_home_and_type l;
       settings := settings l; base_data := Some base_data' |} in
  sleep (delay_between_calls self) ;;;
  ret l.

(** Lines 55-145: the body of the [try]. *)
Definition fetch : M (gmap string snapshot_value) :=
  homes <- await (get_homes (_client self)) get_homes_ev ;;
  let l := no_locals in
  let event_types := get_event_types in
  l <- for_each homes (home_body event_types) l ;;
  match base_data l with
  | None => raise (UnboundLocalError "base_data")
  | Some base_data =>
      ret (<["homes" := SHomes homes]>
           (<["devices" := SDevices (devices l)]>
           (<["meals" := SMeals (meals l)]>
           (<["events_by_home_and_type" :=
                SEvents (events_by_home_and_type l)]>
           (<["event_types" := SEventTypes event_types]>
           (<["settings" := SSettings (settings l)]>
           (<["base_data" := SBase base_data]> ∅)))))))
  end.

Definition _async_update_data : M (gmap string snapshot_value) :=
  try_except fetch
    (λ err,
       raise (UpdateFailed ("Error communicating with API: " +:+ str_exn err)
                err)).

End Update.

(** ** Setup and unload *)

(** [homeassistant.config_entries.ConfigEntry]. *)
Record ConfigEntry := {
  entry_id : string;
  data : gmap string value }.

(** The operations of the platform that the component awaits.  They act
    on the world; the component's own table in [hass.data] is only written
    by the component. *)
Record HomeAssistant := {
  async_config_entry_first_refresh :
    PhilipsPetsSeriesDataUpdateCoordinator → W → W * result unit;
  async_forward_entry_setups :
    ConfigEntry → list Platform → W → W * result unit;
  async_unload_platforms :
    ConfigEntry → list Platform → W → W * result bool }.

(** The constructor [PetsSeriesClient(access_token=, refresh_token=,
    tuya_credentials=)] of the library. *)
Variable new_client :
  option value → option value → option (gmap string value) → PetsSeriesClient.

(** [PhilipsPetsSeriesDataUpdateCoordinator.__init__]; the delay defaults
    to one second. *)
Definition new_coordinator (client : PetsSeriesClient)
  (delay_between_calls : option Q) : PhilipsPetsSeriesDataUpdateCoordinator :=
  {| _client := client;
     delay_between_calls := default 1%Q delay_between_calls;
     update_interval := SCAN_INTERVAL |}.

(** [all(key in data and data[key] for key in keys)]. *)
Definition all_truthy (data : gmap string value) (keys : list string) : bool :=
  forallb
    (λ key, match data !! key with Some v => truthy v | None => false end)
    keys.

(** Lines 157-168. *)
Definition tuya_credentials_of (data : gmap string value)
  : option (gmap string value) :=
  if all_truthy data ["tuya_client_id"; "tuya_ip"; "tuya_local_key"] then
    Some (<["client_id" := default VNone (data !! "tuya_client_id")]>
          (<["ip" := default VNone (data !! "tuya_ip")]>
          (<["local_key" := default VNone (data !! "tuya_local_key")]>
          (<["version" := default (VFloat (34 # 10)) (data !! "tuya_version")]>
             ∅))))
  else None.

(** Lines 151-203.  The handler of the [try] either raises or returns
    [False] from the function; [Some b] is that early return. *)
Definition async_setup_entry (hass : HomeAssistant) (entry : ConfigEntry)
  : M bool :=
  let data := data entry in
  let access_token := data !! "access_token" in
  let refresh_token := data !! "refresh_token" in
  let tuya_credentials := tuya_credentials_of data in
  let client := new_client access_token refresh_token tuya_credentials in
  returned <-
    try_except
      (await (initialize client) initialize_ev ;;; ret None)
      (λ e,
         if contains "invalid_client" (str_exn e) then
           raise (ConfigEntryAuthFailed
                    "Invalid client credentials. Please re-authenticate." e)
         else ret (Some false)) ;;
  match returned with
  | Some b => ret b
  | None =>
      let coordinator := new_coordinator client (Some (1 # 2)) in
      await (async_config_entry_first_refresh hass coordinator)
        first_refresh_ev ;;;
      d <- get_hass_data ;;
      let d :=
        match d !! DOMAIN with
        | Some _ => d
        | None => <[DOMAIN := ∅]> d
        end in
      set_hass_data
        (alter
           (<[entry_id entry :=
                {| entry_client := client;
                   entry_coordinator := coordinator |}]>)
           DOMAIN d) ;;;
      await (async_forward_entry_setups hass entry PLATFORMS)
        (forward_entry_setups_ev (entry_id entry) PLATFORMS) ;;;
      ret true
  end.

(** The client that [async_setup_entry] constructs from the data of the
    entry. *)
Definition client_of (entry : ConfigEntry) : PetsSeriesClient :=
  new_client (data entry !! "access_token") (data entry !! "refresh_token")
    (tuya_credentials_of (data entry)).

(** [d[k]], raising [KeyError] when the key is missing. *)
Definition getitem {V} (d : gmap string V) (k : string) : M V :=
  match d !! k with
  | Some v => ret v
  | None => raise (KeyError k)
  end.

(** Lines 206-213. *)
Definition async_unload_entry (hass : HomeAssistant) (entry : ConfigEntry)
  : M bool :=
  unload_ok <-
    await (async_unload_platforms hass entry PLATFORMS)
      (unload_platforms_ev (entry_id entry) PLATFORMS) ;;
  (if unload_ok then
     d <- get_hass_data ;;
     table <- getitem d DOMAIN ;;
     stored <- getitem table (entry_id entry) ;;
     let client := entry_client stored in
     await (close client) close_ev ;;;
     d <- get_hass_data ;;
     table <- getitem d DOMAIN ;;
     _ <- getitem table (entry_id entry) ;;
     set_hass_data (<[DOMAIN := delete (entry_id entry) table]> d)
   else ret tt) ;;;
  ret unload_ok.

End Component.

Arguments PetsSeriesClient W : clear implicits.
Arguments PhilipsPetsSeriesDataUpdateCoordinator W : clear implicits.
Arguments HomeAssistant W : clear implicits.
Arguments state W : clear implicits.
Arguments entry_state W : clear implicits.

(** ** Reading a trace *)

(** The successful [get_devices] calls of a trace: the home asked for and
    the list returned. *)
Definition devices_fetched (tr : list call) : list (Home.t * list Device.t) :=
  omap (λ c, match c with
             | get_devices_ev home (Ok ds) => Some (home, ds)
             | _ => None
             end) tr.

Definition meals_fetched (tr : list call) : list (Home.t * list Meal) :=
  omap (λ c, match c with
             | get_meals_ev home (Ok ms) => Some (home, ms)
             | _ => None
             end) tr.

(** The successful [get_events] calls: the arguments, and the list
    returned. *)
Definition events_fetched (tr : list call)
  : list ((Home.t * datetime * datetime * string) * list Event) :=
  omap (λ c, match c with
             | get_events_ev home from to types (Ok es) =>
                 Some ((home, from, to, types), es)
             | _ => None
             end) tr.

(** The exception of a call that raised. *)
Definition failure (c : call) : option exn :=
  match c with
  | initialize_ev (Raise e) | get_homes_ev (Raise e)
  | get_devices_ev _ (Raise e) | get_events_ev _ _ _ _ (Raise e)
  | get_settings_ev _ _ (Raise e) | get_tuya_status_ev (Raise e)
  | get_meals_ev _ (Raise e) | close_ev (Raise e)
  | first_refresh_ev (Raise e) | forward_entry_setups_ev _ _ (Raise e)
  | unload_platforms_ev _ _ (Raise e) => Some e
  | _ => None
  end.

Definition failures (tr : list call) : list exn := omap failure tr.

Definition is_close (c : call) : bool :=
  match c with close_ev _ => true | _ => false end.

(** The (home, event type) pairs in the order the loops visit them. *)
Definition pairs (homes : list Home.t) (event_types : list event_type)
  : list (Home.t * event_type) :=
  homes ≫= λ home, (λ et, (home, et)) <$> event_types.

(** Item assignments [m[k] = v], applied from left to right. *)
Definition store_all {V} (m : gmap string V) (kvs : list (string * V))
  : gmap string V :=
  foldl (λ m kv, <[kv.1 := kv.2]> m) m kvs.

(** The mapping a successful refresh returns. *)
Definition snapshot (homes : list Home.t) (devices : list Device.t)
  (meals : list Meal) (events : gmap string (list Event))
  (event_types : list event_type)
  (settings : gmap string (gmap string value))
  (base_data : gmap string value) : gmap string snapshot_value :=
  <["homes" := SHomes homes]>
  (<["devices" := SDevices devices]>
  (<["meals" := SMeals meals]>
  (<["events_by_home_and_type" := SEvents events]>
  (<["event_types" := SEventTypes event_types]>
  (<["settings" := SSettings settings]>
  (<["base_data" := SBase base_data]> ∅)))))).

(** Every settings entry carries the marker [None] as its [tuya_status]. *)
Definition all_tuya_status_None (m : gmap string (gmap string value)) : Prop :=
  ∀ device_id st, m !! device_id = Some st → st !! "tuya_status" = Some VNone.

(** The calls of the local-status step: one query when a local backend is
    configured, none otherwise. *)
Definition tuya_calls {W} (self : PhilipsPetsSeriesDataUpdateCoordinator W)
  (v : value) : list call :=
  if tuya_client (_client self) then [get_tuya_status_ev (Ok v)] else [].

(** A computation reports its failures when its trace holds no failed
    call if it returns, and exactly one, the exception it raises, if it
    raises. *)
Definition reports {W A} (m : M (W:=W) A) : Prop :=
  ∀ σ σ' tr r,
    m σ = (σ', tr, r) →
    failures tr = match r with Ok _ => [] | Raise e => [e] end.

(** An event constructor that records the outcome of its call. *)
Definition records {A} (ev : result A → call) : Prop :=
  ∀ r, failure (ev r) = match r with Ok _ => None | Raise e => Some e end.

(** The reading of the events mapping in which every visited pair finds
    its own list under its key: the [i]-th pair visited, with the list
    that the [i]-th [get_events] call returned. *)
Definition each_pair_keeps_its_events (event_types : list event_type)
  (tr : list call) (d : gmap string snapshot_value) : Prop :=
  ∃ homes events,
    d !! "homes" = Some (SHomes homes)
    ∧ d !! "events_by_home_and_type" = Some (SEvents events)
    ∧ ∀ i home et es,
        pairs homes event_types !! i = Some (home, et) →
        (events_fetched tr).*2 !! i = Some es →
        events !! key home et = Some es.

(** * Concrete collaborators

    A small account to run the component on.  The world is the number of
    calls answered so far, so that answers can change from call to call. *)

Module Demo.

Definition tick {A} (answer : nat → result A) : nat → nat * result A :=
  λ n, (S n, answer n).

Definition kitchen : Home.t := {| Home.id := "home-1"; Home.name := "Kitchen" |}.
Definition garden : Home.t := {| Home.id := "home-2"; Home.name := "Garden" |}.

Definition feeder (home : Home.t) : Device.t :=
  {| Device.id := Home.id home +:+ "-feeder"; Device.name := "Feeder" |}.

Definition event_types : list event_type :=
  [ETValue "motion_detected" "EventType.motion_detected";
   ETValue "meal_dispensed" "EventType.meal_dispensed";
   ETStr "food_level_low"].

Definition breakfast : Meal := {| meal_id := "m-1"; meal_name := "Breakfast" |}.

(** The cloud answers every call; the local device reports the number of
    calls so far. *)
Definition client (tuya : bool) (homes : result (list Home.t))
  : PetsSeriesClient nat :=
  {| tuya_client := tuya;
     initialize := tick (λ _, Ok tt);
     get_homes := tick (λ _, homes);
     get_devices home := tick (λ _, Ok [feeder home]);
     get_events home _ _ types :=
       tick (λ n,
         Ok (if String.eqb types "EventType.meal_dispensed" then
               [{| event_id := Home.id home; event_type_name := types |}]
             else []));
     get_settings _ device_id :=
       tick (λ _, Ok (<["device" := VStr device_id]> {["volume" := VInt 3]}));
     get_tuya_status := tick (λ n, Ok (VInt (Z.of_nat n)));
     get_meals _ := tick (λ _, Ok [breakfast]);
     close := tick (λ _, Ok tt) |}.

Definition coordinator (client : PetsSeriesClient nat)
  : PhilipsPetsSeriesDataUpdateCoordinator nat :=
  new_coordinator client (Some (1 # 2)).

Definition st0 : state nat := {| world := 0; hass_data := ∅ |}.

(** A run of the refresh, its trace and the mapping it returns. *)
Definition trace_of {A} (run : state nat * list call * result A) : list call :=
  run.1.2.

Definition returned (run : state nat * list call
                           * result (gmap string snapshot_value))
  : gmap string snapshot_value :=
  match run.2 with Ok d => d | Raise _ => ∅ end.

Definition two_homes (tuya : bool) :=
  _async_update_data event_types
    (coordinator (client tuya (Ok [kitchen; garden]))) st0.

(** Two homes and two event types whose keys collide: home ["1"] with
    type ["a_b"] and home ["1_a"] with type ["b"] both give ["1_a_b"].
    Only the first of these two pairs has an event. *)
Definition h1 : Home.t := {| Home.id := "1"; Home.name := "Flat" |}.
Definition h1a : Home.t := {| Home.id := "1_a"; Home.name := "Annex" |}.

Definition colliding_types : list event_type := [ETStr "a_b"; ETStr "b"].

Definition the_event : Event :=
  {| event_id := "e-1"; event_type_name := "a_b" |}.

Definition colliding_client : PetsSeriesClient nat :=
  {| tuya_client := false;
     initialize := tick (λ _, Ok tt);
     get_homes := tick (λ _, Ok [h1; h1a]);
     get_devices _ := tick (λ _, Ok []);
     get_events home _ _ types :=
       tick (λ _,
         Ok (if String.eqb (Home.id home) "1" && String.eqb types "a_b"
             then [the_event] else []));
     get_settings _ _ := tick (λ _, Ok ∅);
     get_tuya_status := tick (λ _, Ok VNone);
     get_meals _ := tick (λ _, Ok []);
     close := tick (λ _, Ok tt) |}.

Definition colliding :=
  _async_update_data colliding_types (coordinator colliding_client) st0.

(** Setup and unload. *)
Definition DOMAIN : string := "philips_pets_series".

(** The constructor: a client whose [initialize] rejects the access token
    ["revoked"] and cannot reach the cloud with the token ["offline"]. *)
Definition new_client (access_token refresh_token : option value)
  (tuya_credentials : option (gmap string value)) : PetsSeriesClient nat :=
  let c := client (bool_decide (is_Some tuya_credentials))
             (Ok [kitchen; garden]) in
  {| tuya_client := tuya_client c;
     initialize :=
       tick (λ _,
         match access_token with
         | Some (VStr "revoked") =>
             Raise (Error "invalid_client: Client authentication failed")
         | Some (VStr "offline") =>
             Raise (Error "Cannot connect to host")
         | _ => Ok tt
         end);
     get_homes := get_homes c; get_devices := get_devices c;
     get_events := get_events c; get_settings := get_settings c;
     get_tuya_status := get_tuya_status c; get_meals := get_meals c;
     close := close c |}.

Definition entry (access_token : string) : ConfigEntry :=
  {| entry_id := "entry-1";
     data := <["access_token" := VStr access_token]>
               {["refresh_token" := VStr "r"]} |}.

(** A platform that answers [unloaded] to the request to unload. *)
Definition hass (unloaded : result bool) : HomeAssistant nat :=
  {| async_config_entry_first_refresh _ := tick (λ _, Ok tt);
     async_forward_entry_setups _ _ := tick (λ _, Ok tt);
     async_unload_platforms _ _ := tick (λ _, unloaded) |}.

Definition stored : entry_state nat :=
  {| entry_client := new_client (Some (VStr "a")) (Some (VStr "r")) None;
     entry_coordinator :=
       coordinator (new_client (Some (VStr "a")) (Some (VStr "r")) None) |}.

Definition st_loaded : state nat :=
  {| world := 7; hass_data := {[DOMAIN := {["entry-1" := stored]}]} |}.

End Demo.

(** * Further collaborators *)

Module Scenario.

(** A platform with chosen answers to the first refresh, to the
    forwarding and to the request to unload. *)
Definition hass (first_refresh forward : result unit)
  (unloaded : result bool) : HomeAssistant nat :=
  {| async_config_entry_first_refresh _ := Demo.tick (λ _, first_refresh);
     async_forward_entry_setups _ _ := Demo.tick (λ _, forward);
     async_unload_platforms _ _ := Demo.tick (λ _, unloaded) |}.

(** A cloud that refuses to list the devices of the second home. *)
Definition flaky_client : PetsSeriesClient nat :=
  let c := Demo.client false (Ok [Demo.kitchen; Demo.garden]) in
  {| tuya_client := tuya_client c;
     initialize := initialize c;
     get_homes := get_homes c;
     get_devices home :=
       Demo.tick (λ _,
         if String.eqb (Home.id home) "home-2" then
           Raise (Error "429 Too Many Requests")
         else Ok [Demo.feeder home]);
     get_events := get_events c; get_settings := get_settings c;
     get_tuya_status := get_tuya_status c; get_meals := get_meals c;
     close := close c |}.

Definition flaky :=
  _async_update_data Demo.event_types (Demo.coordinator flaky_client)
    Demo.st0.

(** A client whose connection cannot be closed. *)
Definition stubborn_client : PetsSeriesClient nat :=
  let c := Demo.client false (Ok [Demo.kitchen; Demo.garden]) in
  {| tuya_client := tuya_client c;
     initialize := initialize c;
     get_homes := get_homes c; get_devices := get_devices c;
     get_events := get_events c; get_settings := get_settings c;
     get_tuya_status := get_tuya_status c; get_meals := get_meals c;
     close := Demo.tick (λ _, Raise (Error "Session is closed")) |}.

Definition stubborn : entry_state nat :=
  {| entry_client := stubborn_client;
     entry_coordinator := Demo.coordinator stubborn_client |}.

Definition st_stubborn : state nat :=
  {| world := 3;
     hass_data := {[Demo.DOMAIN := {["entry-1" := stubborn]}]} |}.

(** Another entry of the component is loaded; ["entry-1"] is not. *)
Definition st_other : state nat :=
  {| world := 0;
     hass_data := {[Demo.DOMAIN := {["entry-0" := Demo.stored]}]} |}.

End Scenario.

(** ** Further readings of a trace *)

(** The successful [get_settings] calls: the device asked for and the
    dictionary returned. *)
Definition settings_fetched (tr : list call)
  : list (string * gmap string value) :=
  omap (λ c, match c with
             | get_settings_ev _ device_id (Ok st) => Some (device_id, st)
             | _ => None
             end) tr.

(** The delays slept, in order. *)
Definition sleeps (tr : list call) : list Q :=
  omap (λ c, match c with sleep_ev delay => Some delay | _ => None end) tr.

Definition is_tuya_query (c : call) : bool :=
  match c with get_tuya_status_ev _ => true | _ => false end.

(** The calls of the client that list or fetch, and the sleeps: what a
    refresh is made of. *)
Definition is_fetch_or_sleep (c : call) : bool :=
  match c with
  | get_homes_ev _ | get_devices_ev _ _ | get_events_ev _ _ _ _ _
  | get_settings_ev _ _ _ | get_tuya_status_ev _ | get_meals_ev _ _
  | sleep_ev _ => true
  | _ => false
  end.

(** Every call of the computation satisfies [Q], and [hass.data] is left
    alone, whatever the outcome. *)
Definition confined {W A} (Q : call → bool) (m : M (W:=W) A) : Prop :=
  ∀ σ σ' tr r,
    m σ = (σ', tr, r) →
    forallb Q tr = true ∧ hass_data σ' = hass_data σ.

(** A computation that raises does so on its last call. *)
Definition fails_last {W A} (m : M (W:=W) A) : Prop :=
  ∀ σ σ' tr e,
    m σ = (σ', tr, Raise e) →
    ∃ c, last tr = Some c ∧ failure c = Some e.

(** The computation returned. *)
Definition is_ok {A} (r : result A) : bool :=
  match r with Ok _ => true | Raise _ => false end.

(** The kind of a call, forgetting arguments and answers. *)
Inductive kind :=
| KHomes | KDevices | KEvents | KSettings | KTuya | KMeals | KSleep | KOther.

Definition kind_of (c : call) : kind :=
  match c with
  | get_homes_ev _ => KHomes
  | get_devices_ev _ _ => KDevices
  | get_events_ev _ _ _ _ _ => KEvents
  | get_settings_ev _ _ _ => KSettings
  | get_tuya_status_ev _ => KTuya
  | get_meals_ev _ _ => KMeals
  | sleep_ev _ => KSleep
  | _ => KOther
  end.

(** The kinds of the calls of one iteration of the loop over the homes,
    for [n_event_types] event types and [n_devices] devices of the home;
    [tuya] tells whether a local backend is configured. *)
Definition home_kinds (tuya : bool) (n_event_types n_devices : nat)
  : list kind :=
  [KDevices; KSleep]
  ++ concat (replicate n_event_types [KEvents; KSleep])
  ++ concat (replicate n_devices
               (KSettings :: (if tuya then [KTuya] else []) ++ [KSleep]))
  ++ KMeals :: (if tuya then [KTuya] else []) ++ [KSleep].

(** The string has no underscore. *)
Definition no_underscore (s : string) : Prop := contains "_" s = false.

(** The value [v] that the coordinator stores as [tuya_status]: the
    answer of a status query of the trace when a local backend is
    configured, and [None] otherwise. *)
Definition status_answered {W}
  (self : PhilipsPetsSeriesDataUpdateCoordinator W) (tr : list call)
  (v : value) : Prop :=
  if tuya_client (_client self) then get_tuya_status_ev (Ok v) ∈ tr
  else v = VNone.

(** [s.endswith(suffix)]. *)
Fixpoint ends_with (suffix s : string) : bool :=
  String.eqb suffix s
  || match s with
     | EmptyString => false
     | String _ s' => ends_with suffix s'
     end.

(** No string of the list is another string of the list behind an
    underscore (and anything before it): what keeps the keys
    ["{home.id}_{event_type_str}"] of different event types apart. *)
Definition keys_unambiguous (strs : list string) : bool :=
  forallb (λ s, forallb (λ t, negb (ends_with ("_" +:+ t) s)) strs) strs.

(** * Properties *)

Section Properties.

Context {W : Type}.
Variable DOMAIN : string.
Variable get_event_types : list event_type.

Implicit Types (σ : state W) (tr : list call) (l : locals).
Implicit Types (self : PhilipsPetsSeriesDataUpdateCoordinator W).

(** ** The monad *)

Lemma bind_Ok {A B} (m : M A) (k : A → M B) σ σ' tr (b : B) :
  bind m k σ = (σ', tr, Ok b) →
  ∃ σ1 tr1 a tr2,
    m σ = (σ1, tr1, Ok a) ∧ k a σ1 = (σ', tr2, Ok b) ∧ tr = tr1 ++ tr2.
Proof.
  unfold bind. destruct (m σ) as [[σ1 tr1] [a|e]]; [|discriminate].
  destruct (k a σ1) as [[σ2 tr2] r] eqn:Hk. intros [= <- <- <-].
  by exists σ1, tr1, a, tr2.
Qed.

Lemma bind_Raise {A B} (m : M A) (k : A → M B) σ σ' tr e :
  bind m k σ = (σ', tr, Raise e) →
  m σ = (σ', tr, Raise e)
  ∨ ∃ σ1 tr1 a tr2,
      m σ = (σ1, tr1, Ok a) ∧ k a σ1 = (σ', tr2, Raise e) ∧ tr = tr1 ++ tr2.
Proof.
  unfold bind. destruct (m σ) as [[σ1 tr1] [a|e']].
  - destruct (k a σ1) as [[σ2 tr2] r] eqn:Hk. intros [= <- <- ->].
    right. by exists σ1, tr1, a, tr2.
  - intros [= <- <- <-]. by left.
Qed.

Lemma await_run {A} (op : W → W * result A) ev σ σ' tr (r : result A) :
  await op ev σ = (σ', tr, r) →
  op (world σ) = (world σ', r) ∧ hass_data σ' = hass_data σ ∧ tr = [ev r].
Proof.
  unfold await. destruct (op (world σ)) as [w' r'].
  by intros [= <- <- <-].
Qed.

Lemma sleep_run d σ σ' tr (r : result unit) :
  sleep d σ = (σ', tr, r) → σ' = σ ∧ tr = [sleep_ev d] ∧ r = Ok tt.
Proof. by intros [= <- <- <-]. Qed.

Lemma ret_run {A} (a : A) σ σ' tr (r : result A) :
  ret a σ = (σ', tr, r) → σ' = σ ∧ tr = [] ∧ r = Ok a.
Proof. by intros [= <- <- <-]. Qed.

Lemma raise_run {A} e σ σ' tr (r : result A) :
  raise e σ = (σ', tr, r) → σ' = σ ∧ tr = [] ∧ r = Raise e.
Proof. by intros [= <- <- <-]. Qed.

(** Take a run of a sequence of steps apart. *)
Ltac run_inv :=
  repeat match goal with
    | H : bind _ _ _ = (_, _, Ok _) |- _ =>
        apply bind_Ok in H as (? & ? & ? & ? & ? & H & ->)
    | H : await _ _ _ = _ |- _ => apply await_run in H as (H & ? & ->)
    | H : sleep _ _ = _ |- _ => apply sleep_run in H as (-> & -> & ?)
    | H : ret _ _ = _ |- _ => apply ret_run in H as (-> & -> & ?)
    | H : raise _ _ = _ |- _ => apply raise_run in H as (-> & -> & ?)
    | H : Ok _ = Ok _ |- _ => injection H as H
    | H : Ok _ = Raise _ |- _ => discriminate H
    | H : Raise _ = Ok _ |- _ => discriminate H
    end.

(** ** Loops *)

Lemma for_each_snoc {A L} (xs : list A) (x : A) (body : A → L → M L)
    (acc : L) σ :
  for_each (xs ++ [x]) body acc σ
  = bind (for_each xs body acc) (body x) σ.
Proof.
  revert acc σ. induction xs as [|y xs IH]; intros acc σ; simpl.
  - unfold bind, ret. simpl.
    destruct (body x acc σ) as [[σ1 tr1] [a|e]]; simpl; [|done].
    by rewrite app_nil_r.
  - unfold bind. destruct (body y acc σ) as [[σ1 tr1] [a|e]]; [|done].
    rewrite IH. unfold bind.
    destruct (for_each xs body a σ1) as [[σ2 tr2] [a2|e2]]; [|done].
    destruct (body x a2 σ2) as [[σ3 tr3] r]. by rewrite app_assoc.
Qed.

(** A loop that completes establishes any invariant of the elements done,
    the accumulated locals and the calls made that its body maintains. *)
Lemma for_each_Ok {A L} (I : list A → L → list call → Prop)
    (body : A → L → M L) (xs : list A) (acc0 acc : L) σ σ' tr :
  I [] acc0 [] →
  (∀ done x a a' tr0 tr1 σ0 σ1,
     I done a tr0 → body x a σ0 = (σ1, tr1, Ok a') →
     I (done ++ [x]) a' (tr0 ++ tr1)) →
  for_each xs body acc0 σ = (σ', tr, Ok acc) →
  I xs acc tr.
Proof.
  intros H0 Hstep. revert acc σ' tr.
  induction xs as [|x xs IH] using rev_ind; intros acc σ' tr Hrun.
  - simpl in Hrun. run_inv. by subst.
  - rewrite for_each_snoc in Hrun. run_inv. eauto.
Qed.

(** ** Reading the trace of a sequence *)

Lemma devices_fetched_app tr1 tr2 :
  devices_fetched (tr1 ++ tr2) = devices_fetched tr1 ++ devices_fetched tr2.
Proof. apply omap_app. Qed.

Lemma meals_fetched_app tr1 tr2 :
  meals_fetched (tr1 ++ tr2) = meals_fetched tr1 ++ meals_fetched tr2.
Proof. apply omap_app. Qed.

Lemma events_fetched_app tr1 tr2 :
  events_fetched (tr1 ++ tr2) = events_fetched tr1 ++ events_fetched tr2.
Proof. apply omap_app. Qed.

Lemma failures_app tr1 tr2 :
  failures (tr1 ++ tr2) = failures tr1 ++ failures tr2.
Proof. apply omap_app. Qed.

Lemma devices_fetched_cons c tr :
  devices_fetched (c :: tr) = devices_fetched [c] ++ devices_fetched tr.
Proof. apply (devices_fetched_app [c]). Qed.

Lemma meals_fetched_cons c tr :
  meals_fetched (c :: tr) = meals_fetched [c] ++ meals_fetched tr.
Proof. apply (meals_fetched_app [c]). Qed.

Lemma events_fetched_cons c tr :
  events_fetched (c :: tr) = events_fetched [c] ++ events_fetched tr.
Proof. apply (events_fetched_app [c]). Qed.

Lemma store_all_app {V} (m : gmap string V) kvs1 kvs2 :
  store_all m (kvs1 ++ kvs2) = store_all (store_all m kvs1) kvs2.
Proof. apply foldl_app. Qed.

(** ** The inner loops *)

(** The loop over the event types of one home: one [get_events] call per
    event type, in order, over the fixed window; each response is stored
    under the key of its pair; nothing else changes. *)
Lemma event_types_loop self home ets l l' σ σ' tr :
  for_each ets (event_type_body self home) l σ = (σ', tr, Ok l') →
  (devices l' = devices l ∧ meals l' = meals l
   ∧ settings l' = settings l ∧ base_data l' = base_data l)
  ∧ (devices_fetched tr = [] ∧ meals_fetched tr = [])
  ∧ (events_fetched tr).*1
    = (λ et, (home, from_date, to_date, str_event_type et)) <$> ets
  ∧ events_by_home_and_type l'
    = store_all (events_by_home_and_type l)
        (zip (key home <$> ets) (events_fetched tr).*2).
Proof.
  apply (for_each_Ok (λ done l' tr,
    (devices l' = devices l ∧ meals l' = meals l
     ∧ settings l' = settings l ∧ base_data l' = base_data l)
    ∧ (devices_fetched tr = [] ∧ meals_fetched tr = [])
    ∧ (events_fetched tr).*1
      = (λ et, (home, from_date, to_date, str_event_type et)) <$> done
    ∧ events_by_home_and_type l'
      = store_all (events_by_home_and_type l)
          (zip (key home <$> done) (events_fetched tr).*2))).
  { done. }
  intros done et a a' tr0 tr1 σ0 σ1 (Hframe & [Hd Hm] & Hcalls & Hstore) Hbody.
  unfold event_type_body in Hbody. run_inv. subst a'. simpl.
  rewrite devices_fetched_app, meals_fetched_app, events_fetched_app.
  rewrite Hd, Hm. simpl. destruct Hframe as (? & ? & ? & ?).
  split_and!; try done.
  - by rewrite !fmap_app, Hcalls.
  - rewrite !fmap_app. simpl.
    assert (length (events_fetched tr0) = length done) as Hlen
      by (by rewrite <-(length_fmap fst), Hcalls, length_fmap).
    rewrite zip_with_app by (by rewrite !length_fmap).
    by rewrite store_all_app, <-Hstore.
Qed.

(** The loop over the devices of one home touches only [settings]; when
    no local backend is configured, every entry it writes carries the
    marker. *)
Lemma devices_loop self home ds l l' σ σ' tr :
  for_each ds (device_body self home) l σ = (σ', tr, Ok l') →
  (devices l' = devices l ∧ meals l' = meals l
   ∧ events_by_home_and_type l' = events_by_home_and_type l
   ∧ base_data l' = base_data l)
  ∧ (devices_fetched tr = [] ∧ meals_fetched tr = []
     ∧ events_fetched tr = [])
  ∧ (tuya_client (_client self) = false →
     all_tuya_status_None (settings l) → all_tuya_status_None (settings l')).
Proof.
  apply (for_each_Ok (λ (_ : list Device.t) l' tr,
    (devices l' = devices l ∧ meals l' = meals l
     ∧ events_by_home_and_type l' = events_by_home_and_type l
     ∧ base_data l' = base_data l)
    ∧ (devices_fetched tr = [] ∧ meals_fetched tr = []
       ∧ events_fetched tr = [])
    ∧ (tuya_client (_client self) = false →
       all_tuya_status_None (settings l) →
       all_tuya_status_None (settings l')))).
  { done. }
  intros _ device a a' tr0 tr1 σ0 σ1 (Hframe & (Hd & Hm & He) & Hnone) Hbody.
  unfold device_body in Hbody.
  apply bind_Ok in Hbody as (σa & tra & st & trb & Hget & Hbody & ->).
  apply bind_Ok in Hbody as (σb & trc & lb & trd & Htuya & Hbody & ->).
  run_inv. subst a'.
  assert (∃ v,
    lb = set_tuya_status (Device.id device) v
           {| devices := devices a; meals := meals a;
              events_by_home_and_type := events_by_home_and_type a;
              settings := <[Device.id device := st]> (settings a);
              base_data := base_data a |}
    ∧ devices_fetched trc = [] ∧ meals_fetched trc = []
    ∧ events_fetched trc = []
    ∧ (tuya_client (_client self) = false → v = VNone))
    as (v & -> & Hdc & Hmc & Hec & Hv).
  { destruct (tuya_client (_client self)); run_inv; subst lb;
      eexists; repeat split; done. }
  rewrite !devices_fetched_app, !meals_fetched_app, !events_fetched_app.
  rewrite Hd, Hm, He, Hdc, Hmc, Hec. simpl. destruct Hframe as (? & ? & ? & ?).
  split_and!; try done.
  intros Hno Hall device_id st' Hlook.
  rewrite lookup_alter in Hlook. case_decide as Hid.
  - subst device_id. rewrite lookup_insert_eq in Hlook. simpl in Hlook.
    injection Hlook as <-. rewrite (Hv Hno). apply lookup_insert_eq.
  - rewrite lookup_insert_ne in Hlook by done. by eapply (Hnone Hno Hall).
Qed.

(** ** One home *)

(** A completed iteration of the outer loop: it starts with the device
    listing of the home and ends with its meals, the local-status step and
    a sleep; [base_data] is a new dictionary holding the status alone. *)
Lemma home_body_Ok self ets home l l' σ σ' tr :
  home_body self ets home l σ = (σ', tr, Ok l') →
  ∃ ds ms v tr_mid,
    tr = get_devices_ev home (Ok ds) :: tr_mid
         ++ get_meals_ev home (Ok ms) :: tuya_calls self v
         ++ [sleep_ev (delay_between_calls self)]
    ∧ (tuya_client (_client self) = false → v = VNone)
    ∧ (devices_fetched tr_mid = [] ∧ meals_fetched tr_mid = [])
    ∧ (devices l' = devices l ++ ds ∧ meals l' = meals l ++ ms
       ∧ base_data l' = Some {["tuya_status" := v]})
    ∧ (events_fetched tr).*1
      = (λ et, (home, from_date, to_date, str_event_type et)) <$> ets
    ∧ events_by_home_and_type l'
      = store_all (events_by_home_and_type l)
          (zip (key home <$> ets) (events_fetched tr).*2)
    ∧ (tuya_client (_client self) = false →
       all_tuya_status_None (settings l) → all_tuya_status_None (settings l')).
Proof.
  unfold home_body. intros Hrun.
  apply bind_Ok in Hrun as (σ1 & tr1 & ds & tr1' & Hdev & Hrun & ->).
  apply bind_Ok in Hrun as (σ2 & tr2 & [] & tr2' & Hsl & Hrun & ->).
  apply bind_Ok in Hrun as (σ3 & tr3 & l3 & tr3' & Hev & Hrun & ->).
  apply bind_Ok in Hrun as (σ4 & tr4 & l4 & tr4' & Hds & Hrun & ->).
  apply bind_Ok in Hrun as (σ5 & tr5 & ms & tr5' & Hms & Hrun & ->).
  apply bind_Ok in Hrun as (σ6 & tr6 & bd & tr6' & Htuya & Hrun & ->).
  apply event_types_loop in Hev
    as ((Hd3 & Hm3 & Hs3 & Hb3) & (Hfd3 & Hfm3) & Hcalls & Hstore).
  apply devices_loop in Hds
    as ((Hd4 & Hm4 & He4 & Hb4) & (Hfd4 & Hfm4 & Hfe4) & Hnone).
  simpl in *.
  assert (∃ v, bd = {["tuya_status" := v]} ∧ tr6 = tuya_calls self v
               ∧ (tuya_client (_client self) = false → v = VNone))
    as (v & -> & -> & Hv).
  { unfold tuya_calls. destruct (tuya_client (_client self)); run_inv; subst bd;
      eexists; by rewrite insert_empty. }
  run_inv. subst l'. simpl.
  exists ds, ms, v, (sleep_ev (delay_between_calls self) :: tr3 ++ tr4).
  split_and!; try done.
  - simpl. by rewrite <-!app_assoc.
  - by rewrite devices_fetched_cons, devices_fetched_app, Hfd3, Hfd4.
  - by rewrite meals_fetched_cons, meals_fetched_app, Hfm3, Hfm4.
  - by rewrite Hd4, Hd3.
  - by rewrite Hm4, Hm3.
  - rewrite !events_fetched_app, Hfe4, events_fetched_cons,
      events_fetched_app, <-Hcalls.
    unfold tuya_calls. destruct (tuya_client (_client self)); simpl;
      by rewrite !app_nil_r.
  - rewrite He4, Hstore. do 2 f_equal.
    rewrite !events_fetched_app, Hfe4, events_fetched_cons,
      events_fetched_app.
    unfold tuya_calls. destruct (tuya_client (_client self)); simpl;
      by rewrite !app_nil_r.
  - intros Hno Hall. apply (Hnone Hno). by rewrite Hs3.
Qed.

Lemma pairs_snoc homes home ets :
  pairs (homes ++ [home]) ets = pairs homes ets ++ ((λ et, (home, et)) <$> ets).
Proof. unfold pairs. rewrite bind_app. simpl. by rewrite app_nil_r. Qed.

(** ** The loop over the homes *)

Lemma homes_loop self ets homes l l' σ σ' tr :
  for_each homes (home_body self ets) l σ = (σ', tr, Ok l') →
  ((devices_fetched tr).*1 = homes
   ∧ devices l' = devices l ++ concat (devices_fetched tr).*2)
  ∧ ((meals_fetched tr).*1 = homes
     ∧ meals l' = meals l ++ concat (meals_fetched tr).*2)
  ∧ ((events_fetched tr).*1
     = (λ p, (p.1, from_date, to_date, str_event_type p.2)) <$> pairs homes ets
     ∧ events_by_home_and_type l'
       = store_all (events_by_home_and_type l)
           (zip ((λ p, key p.1 p.2) <$> pairs homes ets)
              (events_fetched tr).*2))
  ∧ (tuya_client (_client self) = false →
     all_tuya_status_None (settings l) → all_tuya_status_None (settings l')).
Proof.
  apply (for_each_Ok (λ done l' tr,
    ((devices_fetched tr).*1 = done
     ∧ devices l' = devices l ++ concat (devices_fetched tr).*2)
    ∧ ((meals_fetched tr).*1 = done
       ∧ meals l' = meals l ++ concat (meals_fetched tr).*2)
    ∧ ((events_fetched tr).*1
       = (λ p, (p.1, from_date, to_date, str_event_type p.2))
           <$> pairs done ets
       ∧ events_by_home_and_type l'
         = store_all (events_by_home_and_type l)
             (zip ((λ p, key p.1 p.2) <$> pairs done ets)
                (events_fetched tr).*2))
    ∧ (tuya_client (_client self) = false →
       all_tuya_status_None (settings l) →
       all_tuya_status_None (settings l')))).
  { simpl. by rewrite !app_nil_r. }
  intros done home a a' tr0 tr1 σ0 σ1
    ([Hd1 Hd2] & [Hm1 Hm2] & [He1 He2] & Hnone) Hbody.
  apply home_body_Ok in Hbody
    as (ds & ms & v & tr_mid & Htr & Hv & (Hfd & Hfm) & (Hd & Hm & Hb)
        & Hcalls & Hstore & Hnone').
  assert (devices_fetched tr1 = [(home, ds)]) as Hfd1.
  { rewrite Htr, devices_fetched_cons, devices_fetched_app, Hfd.
    unfold tuya_calls. by destruct (tuya_client (_client self)). }
  assert (meals_fetched tr1 = [(home, ms)]) as Hfm1.
  { rewrite Htr, meals_fetched_cons, meals_fetched_app, Hfm.
    unfold tuya_calls. by destruct (tuya_client (_client self)). }
  rewrite devices_fetched_app, meals_fetched_app, events_fetched_app.
  rewrite Hfd1, Hfm1, pairs_snoc, !fmap_app, !concat_app. simpl.
  rewrite !app_nil_r, !app_assoc, <-Hd2, <-Hm2, Hd1, Hm1.
  split_and!; try done.
  - rewrite He1, Hcalls. f_equal. by rewrite <-list_fmap_compose.
  - assert (length (events_fetched tr0) = length (pairs done ets)) as Hlen
      by (by rewrite <-(length_fmap fst), He1, length_fmap).
    rewrite zip_with_app by (by rewrite !length_fmap).
    rewrite store_all_app, <-He2, Hstore. do 2 f_equal.
    by rewrite <-list_fmap_compose.
  - intros Hno Hall. apply (Hnone' Hno). by apply Hnone.
Qed.

(** ** Failures *)

Lemma reports_ret {A} (a : A) : reports (W:=W) (ret a).
Proof. intros σ σ' tr r Hrun. by run_inv; subst. Qed.

Lemma reports_sleep d : reports (W:=W) (sleep d).
Proof. intros σ σ' tr r Hrun. by run_inv; subst. Qed.

Lemma reports_await {A} (op : W → W * result A) ev :
  records ev → reports (await op ev).
Proof.
  intros Hev σ σ' tr r Hrun. run_inv. unfold failures. simpl.
  rewrite Hev. by destruct r.
Qed.

Lemma reports_bind {A B} (m : M (W:=W) A) (k : A → M (W:=W) B) :
  reports m → (∀ a, reports (k a)) → reports (bind m k).
Proof.
  intros Hm Hk σ σ' tr [b|e] Hrun.
  - apply bind_Ok in Hrun as (σ1 & tr1 & a & tr2 & H1 & H2 & ->).
    by rewrite failures_app, (Hm _ _ _ _ H1), (Hk _ _ _ _ _ H2).
  - apply bind_Raise in Hrun
      as [H1|(σ1 & tr1 & a & tr2 & H1 & H2 & ->)].
    + by rewrite (Hm _ _ _ _ H1).
    + by rewrite failures_app, (Hm _ _ _ _ H1), (Hk _ _ _ _ _ H2).
Qed.

Lemma reports_for_each {A L} (xs : list A) (body : A → L → M (W:=W) L) acc :
  (∀ x a, reports (body x a)) → reports (W:=W) (for_each xs body acc).
Proof.
  intros Hbody. revert acc. induction xs as [|x xs IH]; intros acc; simpl.
  - apply reports_ret.
  - apply reports_bind; auto.
Qed.

Lemma reports_if {A} (b : bool) (m1 m2 : M (W:=W) A) :
  reports m1 → reports m2 → reports (W:=W) (if b then m1 else m2).
Proof. by destruct b. Qed.

Create HintDb reports.
#[local] Hint Resolve reports_ret reports_sleep reports_await reports_bind
  reports_for_each reports_if : reports.
#[local] Hint Extern 1 (records _) => (intros [?|?]; reflexivity) : reports.

Lemma reports_event_type_body self home et l :
  reports (event_type_body self home et l).
Proof. unfold event_type_body. auto 10 with reports. Qed.

Lemma reports_device_body self home device l :
  reports (device_body self home device l).
Proof. unfold device_body. auto 10 with reports. Qed.

#[local] Hint Resolve reports_event_type_body reports_device_body : reports.

Lemma reports_home_body self ets home l :
  reports (home_body self ets home l).
Proof. unfold home_body. auto 20 with reports. Qed.

(** ** The body of the [try] *)

Lemma fetch_Ok self σ σ' tr d :
  fetch get_event_types self σ = (σ', tr, Ok d) →
  ∃ homes σ1 tr1 l bd,
    get_homes (_client self) (world σ) = (world σ1, Ok homes)
    ∧ for_each homes (home_body self get_event_types) no_locals σ1
      = (σ', tr1, Ok l)
    ∧ tr = get_homes_ev (Ok homes) :: tr1
    ∧ base_data l = Some bd
    ∧ d = snapshot homes (devices l) (meals l) (events_by_home_and_type l)
            get_event_types (settings l) bd.
Proof.
  unfold fetch. intros Hrun.
  apply bind_Ok in Hrun as (σ1 & tr0 & homes & tr1 & Hhomes & Hrun & ->).
  apply bind_Ok in Hrun as (σ2 & tr2 & l & tr3 & Hloop & Hrun & ->).
  apply await_run in Hhomes as (Hhomes & _ & ->).
  destruct (base_data l) as [bd|] eqn:Hbd; run_inv. subst d.
  exists homes, σ1, tr2, l, bd. by rewrite app_nil_r.
Qed.

Lemma fetch_Raise self σ σ' tr e :
  fetch get_event_types self σ = (σ', tr, Raise e) →
  failures tr = [e] ∨ (e = UnboundLocalError "base_data" ∧ failures tr = []).
Proof.
  unfold fetch. intros Hrun.
  apply bind_Raise in Hrun as [Hrun|(σ1 & tr0 & homes & tr1 & Hh & Hrun & ->)].
  { left. revert Hrun. apply (reports_await _ get_homes_ev). by intros []. }
  assert (failures tr0 = []) as Hf0.
  { revert Hh. apply (reports_await _ get_homes_ev). by intros []. }
  rewrite failures_app, Hf0. simpl.
  apply bind_Raise in Hrun as [Hrun|(σ2 & tr2 & l & tr3 & Hloop & Hrun & ->)].
  { left. revert Hrun. apply reports_for_each. intros.
    apply reports_home_body. }
  assert (failures tr2 = []) as Hf2.
  { revert Hloop. apply reports_for_each. intros. apply reports_home_body. }
  rewrite failures_app, Hf2. simpl.
  destruct (base_data l); run_inv. right. by simplify_eq.
Qed.

Lemma update_Ok self σ σ' tr d :
  _async_update_data get_event_types self σ = (σ', tr, Ok d) →
  fetch get_event_types self σ = (σ', tr, Ok d).
Proof.
  unfold _async_update_data, try_except.
  destruct (fetch get_event_types self σ) as [[σ1 tr1] [d1|e]].
  - by intros [= <- <- <-].
  - by intros [= _ _ ?].
Qed.

Lemma update_Raise self σ σ' tr e :
  _async_update_data get_event_types self σ = (σ', tr, Raise e) →
  ∃ cause,
    fetch get_event_types self σ = (σ', tr, Raise cause)
    ∧ e = UpdateFailed ("Error communicating with API: " +:+ str_exn cause)
            cause.
Proof.
  unfold _async_update_data, try_except.
  destruct (fetch get_event_types self σ) as [[σ1 tr1] [d1|cause]].
  - by intros [= _ _ ?].
  - simpl. intros [= <- <- <-]. exists cause. by rewrite app_nil_r.
Qed.

(** The handler of the refresh wraps whatever was raised: a refresh never
    raises [ConfigEntryAuthFailed]. *)
Lemma update_never_ConfigEntryAuthFailed self σ σ' tr message cause :
  _async_update_data get_event_types self σ
  ≠ (σ', tr, Raise (ConfigEntryAuthFailed message cause)).
Proof. by intros (? & _ & ?)%update_Raise. Qed.

Lemma dom_snapshot homes ds ms evs ets sets bd :
  dom (snapshot homes ds ms evs ets sets bd)
  = list_to_set
      ["homes"; "devices"; "meals"; "events_by_home_and_type";
       "event_types"; "settings"; "base_data"].
Proof.
  unfold snapshot. rewrite !dom_insert_L, dom_empty_L. simpl. set_solver.
Qed.

(** ** Item assignments in sequence *)

Lemma store_all_snoc {V} (m : gmap string V) kvs kv :
  store_all m (kvs ++ [kv]) = <[kv.1 := kv.2]> (store_all m kvs).
Proof. by rewrite store_all_app. Qed.

(** The value under a key is the one of the last assignment to it. *)
Lemma lookup_store_all_last {V} (m : gmap string V) kvs i k v :
  kvs !! i = Some (k, v) →
  (∀ j kv, i < j → kvs !! j = Some kv → kv.1 ≠ k) →
  store_all m kvs !! k = Some v.
Proof.
  induction kvs as [|kv kvs IH] using rev_ind; [done|].
  intros Hi Hlast. rewrite store_all_snoc.
  apply lookup_snoc_Some in Hi as [[Hlt Hi]| [-> ->]].
  - rewrite lookup_insert_ne.
    + apply IH; [done|]. intros j kv' Hj Hkv'. apply (Hlast j); [done|].
      by apply lookup_app_l_Some.
    + apply (Hlast (length kvs)); [done|]. apply list_lookup_middle; done.
  - apply lookup_insert_eq.
Qed.

Lemma lookup_store_all_is_Some {V} (m : gmap string V) kvs k :
  k ∈ kvs.*1 → is_Some (store_all m kvs !! k).
Proof.
  induction kvs as [|kv kvs IH] using rev_ind; [by intros ?%elem_of_nil|].
  rewrite fmap_app, elem_of_app, store_all_snoc. intros Hin.
  destruct (decide (kv.1 = k)) as [<-|Hne].
  - rewrite lookup_insert_eq. by eexists.
  - rewrite lookup_insert_ne by done. apply IH.
    destruct Hin as [?|Hin]; [done|].
    apply list_elem_of_singleton in Hin. by subst.
Qed.

Lemma elem_of_pairs homes ets home et :
  (home, et) ∈ pairs homes ets ↔ home ∈ homes ∧ et ∈ ets.
Proof.
  unfold pairs. rewrite list_elem_of_bind. split.
  - intros (h & Hin & Hh). apply list_elem_of_fmap in Hin as (et' & [= -> ->] & ?).
    done.
  - intros [Hh Het]. exists home. split; [|done].
    apply list_elem_of_fmap. by exists et.
Qed.

(** ** The refresh *)

(** The run of a refresh that returns, taken apart. *)
Lemma update_Ok_loop self σ σ' tr d :
  _async_update_data get_event_types self σ = (σ', tr, Ok d) →
  ∃ homes σ1 tr1 l bd,
    for_each homes (home_body self get_event_types) no_locals σ1
    = (σ', tr1, Ok l)
    ∧ tr = get_homes_ev (Ok homes) :: tr1
    ∧ base_data l = Some bd
    ∧ d = snapshot homes (devices l) (meals l) (events_by_home_and_type l)
            get_event_types (settings l) bd.
Proof.
  intros Hrun%update_Ok%fetch_Ok.
  destruct Hrun as (homes & σ1 & tr1 & l & bd & _ & Hloop & -> & Hbd & ->).
  by exists homes, σ1, tr1, l, bd.
Qed.

(** C2: after a successful refresh, the [devices] list is the
    concatenation, in listing order of the homes, of the lists that
    [get_devices] returned, one call per home. *)
Theorem devices_are_concatenation self σ σ' tr d :
  _async_update_data get_event_types self σ = (σ', tr, Ok d) →
  ∃ homes,
    head tr = Some (get_homes_ev (Ok homes))
    ∧ d !! "homes" = Some (SHomes homes)
    ∧ (devices_fetched tr).*1 = homes
    ∧ d !! "devices" = Some (SDevices (concat (devices_fetched tr).*2)).
Proof.
  intros (homes & σ1 & tr1 & l & bd & Hloop & -> & Hbd & ->)%update_Ok_loop.
  apply homes_loop in Hloop as ([Hd1 Hd2] & _).
  exists homes. rewrite devices_fetched_cons. simpl in *. rewrite <-Hd2.
  by split_and!.
Qed.

(** The events in general, also when keys collide: after a successful
    refresh there is one [get_events] call per (home, event type) pair, in
    visiting order, over the fixed window and with [str(event_type)] as
    type filter; the key of every pair is present in
    [events_by_home_and_type], also when the list fetched is empty; and
    the key maps to the list fetched for the last pair, in visiting order,
    that yields this key. *)
Lemma events_stored_under_last_key self σ σ' tr d :
  _async_update_data get_event_types self σ = (σ', tr, Ok d) →
  ∃ homes events,
    d !! "homes" = Some (SHomes homes)
    ∧ d !! "events_by_home_and_type" = Some (SEvents events)
    ∧ (events_fetched tr).*1
      = (λ p, (p.1, datetime_ymd 2024 1 1 2, datetime_ymd 2100 1 1 2,
               str_event_type p.2))
          <$> pairs homes get_event_types
    ∧ (∀ home et,
         home ∈ homes → et ∈ get_event_types →
         is_Some (events !! key home et))
    ∧ (∀ i home et es,
         pairs homes get_event_types !! i = Some (home, et) →
         (events_fetched tr).*2 !! i = Some es →
         (∀ j p, i < j → pairs homes get_event_types !! j = Some p →
                 key p.1 p.2 ≠ key home et) →
         events !! key home et = Some es).
Proof.
  intros (homes & σ1 & tr1 & l & bd & Hloop & -> & Hbd & ->)%update_Ok_loop.
  apply homes_loop in Hloop as (_ & _ & [He1 He2] & _).
  exists homes, (events_by_home_and_type l).
  rewrite events_fetched_cons. simpl in *.
  assert (length (events_fetched tr1) = length (pairs homes get_event_types))
    as Hlen by (by rewrite <-(length_fmap fst), He1, length_fmap).
  split_and!; try done.
  - intros home et Hh Het. rewrite He2. apply lookup_store_all_is_Some.
    assert ((home, et) ∈ pairs homes get_event_types) as Hin
      by (by apply elem_of_pairs).
    apply list_elem_of_lookup in Hin as [i Hi].
    destruct (lookup_lt_is_Some_2 ((events_fetched tr1).*2) i) as [es Hes].
    { rewrite length_fmap, Hlen. by eapply lookup_lt_Some. }
    apply list_elem_of_fmap. exists (key home et, es). split; [done|].
    apply (list_elem_of_lookup_2 _ i). apply lookup_zip_with_Some.
    exists (key home et), es. split_and!; try done.
    by rewrite list_lookup_fmap, Hi.
  - intros i home et es Hi Hes Hlast. rewrite He2.
    apply (lookup_store_all_last _ _ i).
    + apply lookup_zip_with_Some. exists (key home et), es.
      split_and!; try done. by rewrite list_lookup_fmap, Hi.
    + intros j [k es'] Hij Hj. simpl.
      apply lookup_zip_with_Some in Hj as (k' & es'' & [= <- <-] & Hk & _).
      rewrite list_lookup_fmap in Hk.
      destruct (pairs homes get_event_types !! j) as [p|] eqn:Hp; [|done].
      injection Hk as <-. by apply (Hlast j).
Qed.

(** The last iteration of a completed loop over the homes decides
    [base_data]. *)
Lemma homes_loop_last self ets homes l l' σ σ' tr :
  for_each homes (home_body self ets) l σ = (σ', tr, Ok l') →
  (homes = [] ∧ l' = l ∧ tr = [])
  ∨ ∃ home ms v tr0,
      last homes = Some home
      ∧ tr = tr0 ++ get_meals_ev home (Ok ms) :: tuya_calls self v
             ++ [sleep_ev (delay_between_calls self)]
      ∧ base_data l' = Some {["tuya_status" := v]}
      ∧ (tuya_client (_client self) = false → v = VNone).
Proof.
  destruct homes as [|home homes _] using rev_ind; intros Hrun.
  - left. simpl in Hrun. by run_inv; subst.
  - right. rewrite for_each_snoc in Hrun.
    apply bind_Ok in Hrun as (σ1 & tr1 & l1 & tr2 & _ & Hbody & ->).
    apply home_body_Ok in Hbody
      as (ds & ms & v & tr_mid & -> & Hv & _ & (_ & _ & Hb) & _).
    exists home, ms, v, (tr1 ++ get_devices_ev home (Ok ds) :: tr_mid).
    rewrite last_snoc. split_and!; try done.
    by rewrite <-!app_assoc.
Qed.

(** C6: after a successful refresh without a local backend, every entry
    of [settings] has the field [tuya_status], set to [None], and so has
    [base_data]. *)
Theorem tuya_status_None_without_backend self σ σ' tr d :
  tuya_client (_client self) = false →
  _async_update_data get_event_types self σ = (σ', tr, Ok d) →
  ∃ settings base_data,
    d !! "settings" = Some (SSettings settings)
    ∧ d !! "base_data" = Some (SBase base_data)
    ∧ (∀ device_id st,
         settings !! device_id = Some st → st !! "tuya_status" = Some VNone)
    ∧ base_data !! "tuya_status" = Some VNone.
Proof.
  intros Hno (homes & σ1 & tr1 & l & bd & Hloop & -> & Hbd & ->)%update_Ok_loop.
  exists (settings l), bd. split_and!; try done.
  - apply homes_loop in Hloop as (_ & _ & _ & Hnone).
    apply (Hnone Hno). by intros device_id st ?.
  - apply homes_loop_last in Hloop
      as [(_ & -> & _)|(home & ms & v & tr0 & _ & _ & Hb & Hv)]; [done|].
    rewrite Hb in Hbd. injection Hbd as <-. rewrite (Hv Hno).
    apply lookup_singleton_eq.
Qed.

(** C7: after a successful refresh the list of homes is not empty, and
    [base_data] holds the single key [tuya_status] with the value computed
    in the iteration of the last home: the answer of the local-status query
    that follows the meals of that home (or [None] without a local
    backend).  Nothing of the earlier iterations remains in it. *)
Theorem base_data_of_last_home self σ σ' tr d :
  _async_update_data get_event_types self σ = (σ', tr, Ok d) →
  ∃ homes home ms v tr0,
    d !! "homes" = Some (SHomes homes)
    ∧ last homes = Some home
    ∧ tr = tr0 ++ get_meals_ev home (Ok ms) :: tuya_calls self v
           ++ [sleep_ev (delay_between_calls self)]
    ∧ (tuya_client (_client self) = false → v = VNone)
    ∧ d !! "base_data" = Some (SBase {["tuya_status" := v]}).
Proof.
  intros (homes & σ1 & tr1 & l & bd & Hloop & -> & Hbd & ->)%update_Ok_loop.
  apply homes_loop_last in Hloop
    as [(_ & -> & _)|(home & ms & v & tr0 & Hlast & -> & Hb & Hv)]; [done|].
  rewrite Hb in Hbd. injection Hbd as <-.
  by exists homes, home, ms, v, (get_homes_ev (Ok homes) :: tr0).
Qed.

(** C10: when [get_homes] returns the empty list, the refresh raises
    [UpdateFailed]: [base_data] was never bound, and reading it for the
    returned mapping raises [UnboundLocalError]. *)
Theorem no_homes_UpdateFailed self σ w' :
  get_homes (_client self) (world σ) = (w', Ok []) →
  _async_update_data get_event_types self σ
  = ({| world := w'; hass_data := hass_data σ |},
     [get_homes_ev (Ok [])],
     Raise
       (UpdateFailed
          ("Error communicating with API: "
           +:+ "cannot access local variable 'base_data' where it is not "
           +:+ "associated with a value")
          (UnboundLocalError "base_data"))).
Proof.
  intros Hhomes.
  unfold _async_update_data, try_except, fetch, bind, await.
  by rewrite Hhomes.
Qed.

(** ** Setup and unload *)

Variable new_client :
  option value → option value → option (gmap string value)
  → PetsSeriesClient W.

(** C5: when [client.initialize()] raises during setup, the setup raises
    [ConfigEntryAuthFailed] with the exception as its cause if the text of
    the exception contains [invalid_client], and returns [False]
    otherwise.  In both cases [initialize] is the only call made (no first
    refresh, no platform is set up) and [hass.data] is left as it was: no
    client and no coordinator is stored. *)
Theorem setup_initialize_raises (hass : HomeAssistant W) entry σ w' e :
  initialize (client_of new_client entry) (world σ) = (w', Raise e) →
  async_setup_entry DOMAIN new_client hass entry σ
  = ({| world := w'; hass_data := hass_data σ |},
     [initialize_ev (Raise e)],
     if contains "invalid_client" (str_exn e) then
       Raise (ConfigEntryAuthFailed
                "Invalid client credentials. Please re-authenticate." e)
     else Ok false).
Proof.
  intros Hinit. unfold client_of in Hinit.
  unfold async_setup_entry, try_except, bind, await. simpl.
  rewrite Hinit. simpl.
  by destruct (contains "invalid_client" (str_exn e)).
Qed.

(** C9: the unload first asks the platform to unload the display
    platforms.  Unless that answers [True], nothing else happens: no call
    to [close], [hass.data] unchanged, and the answer (or the exception) is
    the outcome of the unload.  When it answers [True], the client stored
    for the entry is closed and then the entry is removed from the
    component's table; the unload returns [True].  So a call to [close] or
    a change of [hass.data] occurs only if the platform answered [True]. *)
Theorem unload_closes_after_platforms (hass : HomeAssistant W) entry σ w1 r0 :
  async_unload_platforms hass entry PLATFORMS (world σ) = (w1, r0) →
  (r0 ≠ Ok true →
   async_unload_entry DOMAIN hass entry σ
   = ({| world := w1; hass_data := hass_data σ |},
      [unload_platforms_ev (entry_id entry) PLATFORMS r0], r0))
  ∧ (r0 = Ok true →
     ∀ table stored w2,
       hass_data σ !! DOMAIN = Some table →
       table !! entry_id entry = Some stored →
       close (entry_client stored) w1 = (w2, Ok tt) →
       async_unload_entry DOMAIN hass entry σ
       = ({| world := w2;
             hass_data := <[DOMAIN := delete (entry_id entry) table]>
                            (hass_data σ) |},
          [unload_platforms_ev (entry_id entry) PLATFORMS (Ok true);
           close_ev (Ok tt)],
          Ok true))
  ∧ (∀ σ' tr r,
       async_unload_entry DOMAIN hass entry σ = (σ', tr, r) →
       existsb is_close tr = true ∨ hass_data σ' ≠ hass_data σ →
       r0 = Ok true).
Proof.
  intros Hunload.
  assert (r0 ≠ Ok true →
          async_unload_entry DOMAIN hass entry σ
          = ({| world := w1; hass_data := hass_data σ |},
             [unload_platforms_ev (entry_id entry) PLATFORMS r0], r0))
    as Hfail.
  { intros Hr0. unfold async_unload_entry, bind, await. rewrite Hunload.
    destruct r0 as [[|]|e]; done. }
  split_and!.
  - done.
  - intros -> table stored w2 Htable Hstored Hclose.
    unfold async_unload_entry, bind, await, get_hass_data, getitem,
      set_hass_data.
    rewrite Hunload. simpl. rewrite Htable. simpl. rewrite Hstored. simpl.
    rewrite Hclose. simpl. rewrite Htable. simpl. by rewrite Hstored.
  - intros σ' tr r Hrun Hclosed.
    destruct r0 as [[|]|e]; [done| |];
      rewrite Hfail in Hrun by done; simplify_eq; simpl in Hclosed;
      by destruct Hclosed.
Qed.

(** * Further properties of the refresh *)

(** X1: after a successful refresh, the [meals] list is the
    concatenation, in listing order of the homes, of the lists that
    [get_meals] returned, one call per home. *)
Theorem meals_are_concatenation self σ σ' tr d :
  _async_update_data get_event_types self σ = (σ', tr, Ok d) →
  ∃ homes,
    d !! "homes" = Some (SHomes homes)
    ∧ (meals_fetched tr).*1 = homes
    ∧ d !! "meals" = Some (SMeals (concat (meals_fetched tr).*2)).
Proof.
  intros (homes & σ1 & tr1 & l & bd & Hloop & -> & Hbd & ->)%update_Ok_loop.
  apply homes_loop in Hloop as (_ & [Hm1 Hm2] & _).
  exists homes. rewrite meals_fetched_cons. simpl in *. rewrite <-Hm2.
  by split_and!.
Qed.

(** ** Calls that a computation may make *)

Lemma confined_ret {A} Q (a : A) : confined (W:=W) Q (ret a).
Proof. intros σ σ' tr r Hrun. by run_inv; subst. Qed.

Lemma confined_raise {A} Q e : confined (W:=W) (A:=A) Q (raise e).
Proof. intros σ σ' tr r Hrun. by run_inv; subst. Qed.

Lemma confined_sleep Q d : Q (sleep_ev d) = true → confined (W:=W) Q (sleep d).
Proof. intros HQ σ σ' tr r Hrun. run_inv. subst. simpl. by rewrite HQ. Qed.

Lemma confined_await {A} Q (op : W → W * result A) ev :
  (∀ r, Q (ev r) = true) → confined Q (await op ev).
Proof.
  intros HQ σ σ' tr r Hrun. apply await_run in Hrun as (_ & ? & ->).
  simpl. by rewrite HQ.
Qed.

Lemma confined_bind {A B} Q (m : M (W:=W) A) (k : A → M (W:=W) B) :
  confined Q m → (∀ a, confined Q (k a)) → confined Q (bind m k).
Proof.
  intros Hm Hk σ σ' tr [b|e] Hrun.
  - apply bind_Ok in Hrun as (σ1 & tr1 & a & tr2 & H1 & H2 & ->).
    destruct (Hm _ _ _ _ H1) as [? ?], (Hk _ _ _ _ _ H2) as [? ?].
    rewrite forallb_app. split; [by apply andb_true_iff|congruence].
  - apply bind_Raise in Hrun
      as [H1|(σ1 & tr1 & a & tr2 & H1 & H2 & ->)].
    + by apply (Hm _ _ _ _ H1).
    + destruct (Hm _ _ _ _ H1) as [? ?], (Hk _ _ _ _ _ H2) as [? ?].
      rewrite forallb_app. split; [by apply andb_true_iff|congruence].
Qed.

Lemma confined_for_each {A L} Q (xs : list A) (body : A → L → M (W:=W) L)
    acc :
  (∀ x a, confined Q (body x a)) → confined Q (for_each xs body acc).
Proof.
  intros Hbody. revert acc. induction xs as [|x xs IH]; intros acc; simpl.
  - apply confined_ret.
  - apply confined_bind; auto.
Qed.

Lemma confined_if {A} Q (b : bool) (m1 m2 : M (W:=W) A) :
  confined Q m1 → confined Q m2 → confined Q (if b then m1 else m2).
Proof. by destruct b. Qed.

Lemma confined_try_except {A} Q (m : M (W:=W) A) h :
  confined Q m → (∀ e, confined Q (h e)) → confined Q (try_except m h).
Proof.
  intros Hm Hh σ σ' tr r. unfold try_except.
  destruct (m σ) as [[σ1 tr1] [a|e]] eqn:H1.
  - intros [= <- <- <-]. by apply (Hm _ _ _ _ H1).
  - destruct (h e σ1) as [[σ2 tr2] r2] eqn:H2. intros [= <- <- <-].
    destruct (Hm _ _ _ _ H1) as [? ?], (Hh _ _ _ _ _ H2) as [? ?].
    rewrite forallb_app. split; [by apply andb_true_iff|congruence].
Qed.

Create HintDb confined.
#[local] Hint Resolve confined_ret confined_raise confined_sleep
  confined_await confined_bind confined_for_each confined_if
  confined_try_except : confined.
#[local] Hint Extern 1 (∀ _, _ = true) => (intros; reflexivity) : confined.
#[local] Hint Extern 1 (_ = true) => reflexivity : confined.

Lemma confined_fetch Q self :
  (∀ c, is_fetch_or_sleep c = true → is_tuya_query c = false → Q c = true) →
  (tuya_client (_client self) = true →
   ∀ r, Q (get_tuya_status_ev r) = true) →
  confined Q (_async_update_data get_event_types self).
Proof.
  intros HQ Htuya.
  assert (∀ home device l, confined Q (device_body self home device l)).
  { intros. unfold device_body.
    destruct (tuya_client (_client self)); auto 10 with confined. }
  assert (∀ home et l, confined Q (event_type_body self home et l)).
  { intros. unfold event_type_body. auto 10 with confined. }
  assert (∀ ets home l, confined Q (home_body self ets home l)).
  { intros. unfold home_body.
    destruct (tuya_client (_client self)); auto 20 with confined. }
  unfold _async_update_data, fetch.
  apply confined_try_except; [|auto with confined].
  apply confined_bind; [auto with confined|]. intros homes.
  apply confined_bind; [auto with confined|]. intros l.
  destruct (base_data l); auto with confined.
Qed.

(** X2: a refresh, whatever its outcome, makes no other calls than
    listings and fetches of the client and sleeps (it never initializes or
    closes the client and asks nothing of the platform), and it leaves
    [hass.data] as it was. *)
Theorem refresh_only_fetches_and_sleeps self σ :
  let run := _async_update_data get_event_types self σ in
  forallb is_fetch_or_sleep run.1.2 = true
  ∧ hass_data run.1.1 = hass_data σ.
Proof.
  intros run.
  destruct run as [[σ' tr] r] eqn:Hrun. simpl.
  revert Hrun. apply confined_fetch.
  - by intros.
  - by intros.
Qed.

(** X3: without a local backend a refresh never queries the local
    status, whether it returns or raises. *)
Theorem no_backend_no_status_query self σ :
  tuya_client (_client self) = false →
  forallb (λ c, negb (is_tuya_query c))
    (_async_update_data get_event_types self σ).1.2 = true.
Proof.
  intros Hno.
  destruct (_async_update_data get_event_types self σ) as [[σ' tr] r] eqn:Hrun.
  simpl. revert Hrun. apply confined_fetch.
  - by intros c _ ->.
  - by rewrite Hno.
Qed.

(** ** Failing on the last call *)

Lemma fails_last_ret {A} (a : A) : fails_last (W:=W) (ret a).
Proof. intros σ σ' tr e Hrun. by run_inv. Qed.

Lemma fails_last_sleep d : fails_last (W:=W) (sleep d).
Proof. intros σ σ' tr e Hrun. by run_inv. Qed.

Lemma fails_last_await {A} (op : W → W * result A) ev :
  records ev → fails_last (await op ev).
Proof.
  intros Hev σ σ' tr e Hrun. apply await_run in Hrun as (_ & _ & ->).
  eexists. split; [done|]. by rewrite Hev.
Qed.

Lemma fails_last_bind {A B} (m : M (W:=W) A) (k : A → M (W:=W) B) :
  fails_last m → (∀ a, fails_last (k a)) → fails_last (bind m k).
Proof.
  intros Hm Hk σ σ' tr e Hrun.
  apply bind_Raise in Hrun as [H1|(σ1 & tr1 & a & tr2 & H1 & H2 & ->)].
  - by apply (Hm _ _ _ _ H1).
  - destruct (Hk _ _ _ _ _ H2) as (c & Hlast & Hc).
    exists c. split; [|done]. rewrite last_app. by rewrite Hlast.
Qed.

Lemma fails_last_for_each {A L} (xs : list A) (body : A → L → M (W:=W) L)
    acc :
  (∀ x a, fails_last (body x a)) → fails_last (for_each xs body acc).
Proof.
  intros Hbody. revert acc. induction xs as [|x xs IH]; intros acc; simpl.
  - apply fails_last_ret.
  - apply fails_last_bind; auto.
Qed.

Lemma fails_last_if {A} (b : bool) (m1 m2 : M (W:=W) A) :
  fails_last m1 → fails_last m2 → fails_last (if b then m1 else m2).
Proof. by destruct b. Qed.

Create HintDb fails_last.
#[local] Hint Resolve fails_last_ret fails_last_sleep fails_last_await
  fails_last_bind fails_last_for_each fails_last_if : fails_last.
#[local] Hint Extern 1 (records _) => (intros [?|?]; reflexivity) : fails_last.

Lemma fails_last_home_body self ets home l :
  fails_last (home_body self ets home l).
Proof.
  assert (∀ device l, fails_last (device_body self home device l)).
  { intros. unfold device_body. auto 10 with fails_last. }
  assert (∀ et l, fails_last (event_type_body self home et l)).
  { intros. unfold event_type_body. auto 10 with fails_last. }
  unfold home_body. auto 20 with fails_last.
Qed.


(** ** The completed iterations, call by call *)

Lemma sleeps_app tr1 tr2 : sleeps (tr1 ++ tr2) = sleeps tr1 ++ sleeps tr2.
Proof. apply omap_app. Qed.

Lemma settings_fetched_app tr1 tr2 :
  settings_fetched (tr1 ++ tr2) = settings_fetched tr1 ++ settings_fetched tr2.
Proof. apply omap_app. Qed.

Lemma tuya_calls_kinds self v :
  kind_of <$> tuya_calls self v
  = if tuya_client (_client self) then [KTuya] else [].
Proof. unfold tuya_calls. by destruct (tuya_client (_client self)). Qed.

Lemma tuya_calls_quiet self v :
  sleeps (tuya_calls self v) = [] ∧ settings_fetched (tuya_calls self v) = []
  ∧ devices_fetched (tuya_calls self v) = [].
Proof. unfold tuya_calls. by destruct (tuya_client (_client self)). Qed.

Lemma event_type_body_Ok self home et l l' σ σ' tr :
  event_type_body self home et l σ = (σ', tr, Ok l') →
  ∃ es,
    tr = [get_events_ev home from_date to_date (str_event_type et) (Ok es);
          sleep_ev (delay_between_calls self)]
    ∧ settings l' = settings l.
Proof.
  unfold event_type_body. intros Hrun. run_inv. subst l'. by eexists.
Qed.

Lemma device_body_Ok self home device l l' σ σ' tr :
  device_body self home device l σ = (σ', tr, Ok l') →
  ∃ st v,
    tr = get_settings_ev home (Device.id device) (Ok st)
         :: tuya_calls self v ++ [sleep_ev (delay_between_calls self)]
    ∧ settings l'
      = <[Device.id device := <["tuya_status" := v]> st]> (settings l).
Proof.
  unfold device_body, tuya_calls. intros Hrun.
  apply bind_Ok in Hrun as (σa & tra & st & trb & Hget & Hrun & ->).
  apply bind_Ok in Hrun as (σb & trc & lb & trd & Htuya & Hrun & ->).
  apply await_run in Hget as (_ & _ & ->).
  destruct (tuya_client (_client self)); run_inv; subst; simpl;
    eexists st, _; (split; [done|]);
    apply map_eq; intros k; rewrite lookup_alter;
    case_decide; subst; by rewrite ?lookup_insert_eq, ?lookup_insert_ne.
Qed.

(** The two inner loops of a completed iteration, and the calls around
    them. *)
Lemma home_body_runs self ets home l l' σ σ' tr :
  home_body self ets home l σ = (σ', tr, Ok l') →
  ∃ ds ms v l1 l2 l3 σ1 σ2 σ3 tr_ev tr_dev,
    settings l1 = settings l
    ∧ for_each ets (event_type_body self home) l1 σ1 = (σ2, tr_ev, Ok l2)
    ∧ for_each ds (device_body self home) l2 σ2 = (σ3, tr_dev, Ok l3)
    ∧ settings l' = settings l3
    ∧ tr = get_devices_ev home (Ok ds) :: sleep_ev (delay_between_calls self)
           :: tr_ev ++ tr_dev
           ++ get_meals_ev home (Ok ms) :: tuya_calls self v
           ++ [sleep_ev (delay_between_calls self)].
Proof.
  unfold home_body. intros Hrun.
  apply bind_Ok in Hrun as (σ1 & tr1 & ds & tr1' & Hdev & Hrun & ->).
  apply bind_Ok in Hrun as (σ2 & tr2 & [] & tr2' & Hsl & Hrun & ->).
  apply bind_Ok in Hrun as (σ3 & tr3 & l3 & tr3' & Hev & Hrun & ->).
  apply bind_Ok in Hrun as (σ4 & tr4 & l4 & tr4' & Hds & Hrun & ->).
  apply bind_Ok in Hrun as (σ5 & tr5 & ms & tr5' & Hms & Hrun & ->).
  apply bind_Ok in Hrun as (σ6 & tr6 & bd & tr6' & Htuya & Hrun & ->).
  apply await_run in Hdev as (_ & _ & ->).
  apply await_run in Hms as (_ & _ & ->).
  apply sleep_run in Hsl as (-> & -> & _).
  assert (∃ v, tr6 = tuya_calls self v) as [v ->].
  { unfold tuya_calls. destruct (tuya_client (_client self)); run_inv;
      [eexists; reflexivity|by exists VNone]. }
  run_inv. subst l'.
  eexists ds, ms, v, _, l3, l4, _, _, _, tr3, tr4.
  split; [|split; [exact Hev|split; [exact Hds|split]]].
  - done.
  - done.
  - done.
Qed.

Lemma event_types_loop_calls self home ets l l' σ σ' tr :
  for_each ets (event_type_body self home) l σ = (σ', tr, Ok l') →
  kind_of <$> tr = concat (replicate (length ets) [KEvents; KSleep])
  ∧ sleeps tr = replicate (length ets) (delay_between_calls self)
  ∧ settings_fetched tr = []
  ∧ settings l' = settings l.
Proof.
  apply (for_each_Ok (λ done l' tr,
    kind_of <$> tr = concat (replicate (length done) [KEvents; KSleep])
    ∧ sleeps tr = replicate (length done) (delay_between_calls self)
    ∧ settings_fetched tr = []
    ∧ settings l' = settings l)).
  { done. }
  intros done et a a' tr0 tr1 σ0 σ1 (Hk & Hs & Hf & Hsets) Hbody.
  apply event_type_body_Ok in Hbody as (es & -> & Hsets').
  rewrite fmap_app, sleeps_app, settings_fetched_app, Hk, Hs, Hf, length_app.
  rewrite !replicate_add, concat_app. simpl. split_and!; try done.
  congruence.
Qed.

Lemma devices_loop_calls self home ds l l' σ σ' tr :
  for_each ds (device_body self home) l σ = (σ', tr, Ok l') →
  kind_of <$> tr
  = concat (replicate (length ds)
              (KSettings
               :: (if tuya_client (_client self) then [KTuya] else [])
               ++ [KSleep]))
  ∧ sleeps tr = replicate (length ds) (delay_between_calls self)
  ∧ (settings_fetched tr).*1 = Device.id <$> ds
  ∧ dom (settings l') = dom (settings l) ∪ list_to_set (Device.id <$> ds)
  ∧ (∀ device_id st,
       settings l' !! device_id = Some st →
       settings l !! device_id = Some st
       ∨ ∃ r v, (device_id, r) ∈ settings_fetched tr
                ∧ st = <["tuya_status" := v]> r).
Proof.
  apply (for_each_Ok (λ done l' tr,
    kind_of <$> tr
    = concat (replicate (length done)
                (KSettings
                 :: (if tuya_client (_client self) then [KTuya] else [])
                 ++ [KSleep]))
    ∧ sleeps tr = replicate (length done) (delay_between_calls self)
    ∧ (settings_fetched tr).*1 = Device.id <$> done
    ∧ dom (settings l') = dom (settings l) ∪ list_to_set (Device.id <$> done)
    ∧ (∀ device_id st,
         settings l' !! device_id = Some st →
         settings l !! device_id = Some st
         ∨ ∃ r v, (device_id, r) ∈ settings_fetched tr
                  ∧ st = <["tuya_status" := v]> r))).
  { split_and!; try done.
    - simpl. by rewrite (right_id_L ∅ (∪)).
    - by left. }
  intros done device a a' tr0 tr1 σ0 σ1 (Hk & Hs & Hf & Hdom & Hent) Hbody.
  apply device_body_Ok in Hbody as (st & v & -> & Hsets).
  destruct (tuya_calls_quiet self v) as (Hq1 & Hq2 & _).
  rewrite fmap_app, sleeps_app, settings_fetched_app, !fmap_app, Hk, Hs, Hf,
    length_app, !replicate_add, concat_app, Hsets, dom_insert_L, Hdom,
    list_to_set_app_L.
  rewrite fmap_cons, fmap_app, tuya_calls_kinds.
  change (get_settings_ev home (Device.id device) (Ok st)
          :: tuya_calls self v ++ [sleep_ev (delay_between_calls self)])
    with ([get_settings_ev home (Device.id device) (Ok st)]
          ++ tuya_calls self v ++ [sleep_ev (delay_between_calls self)]).
  rewrite !sleeps_app, !settings_fetched_app, Hq1, Hq2. simpl.
  rewrite app_nil_r. split_and!; try done.
  - rewrite (right_id_L ∅ (∪)), (comm_L (∪) {[Device.id device]}).
    by rewrite (assoc_L (∪)).
  - intros device_id st' Hlook.
    destruct (decide (device_id = Device.id device)) as [->|Hne].
    + rewrite lookup_insert_eq in Hlook. injection Hlook as <-.
      right. exists st, v. split; [|done].
      apply elem_of_app. right. by apply list_elem_of_singleton.
    + rewrite lookup_insert_ne in Hlook by done.
      destruct (Hent _ _ Hlook) as [?|(r & v' & Hin & ->)]; [by left|].
      right. exists r, v'. split; [|done]. apply elem_of_app. by left.
Qed.

Lemma home_kinds_of_trace self (ets : list event_type) home
    (ds : list Device.t) ms v tr_ev tr_dev :
  kind_of <$> tr_ev = concat (replicate (length ets) [KEvents; KSleep]) →
  kind_of <$> tr_dev
  = concat (replicate (length ds)
              (KSettings
               :: (if tuya_client (_client self) then [KTuya] else [])
               ++ [KSleep])) →
  kind_of <$> (get_devices_ev home (Ok ds)
               :: sleep_ev (delay_between_calls self)
               :: tr_ev ++ tr_dev
               ++ get_meals_ev home (Ok ms) :: tuya_calls self v
               ++ [sleep_ev (delay_between_calls self)])
  = home_kinds (tuya_client (_client self)) (length ets) (length ds).
Proof.
  intros Hev Hdev. unfold home_kinds.
  rewrite !fmap_cons, !fmap_app, fmap_cons, fmap_app, Hev, Hdev,
    tuya_calls_kinds.
  done.
Qed.

(** The loop over the homes, call by call. *)
Lemma homes_loop_calls self ets homes l l' σ σ' tr :
  for_each homes (home_body self ets) l σ = (σ', tr, Ok l') →
  let fetched := (devices_fetched tr).*2 in
  kind_of <$> tr
  = concat ((λ ds, home_kinds (tuya_client (_client self)) (length ets)
                     (length ds)) <$> fetched)
  ∧ sleeps tr
    = replicate (length homes * (2 + length ets) + length (concat fetched))
        (delay_between_calls self)
  ∧ (settings_fetched tr).*1 = Device.id <$> concat fetched
  ∧ dom (settings l')
    = dom (settings l) ∪ list_to_set (Device.id <$> concat fetched)
  ∧ (∀ device_id st,
       settings l' !! device_id = Some st →
       settings l !! device_id = Some st
       ∨ ∃ r v, (device_id, r) ∈ settings_fetched tr
                ∧ st = <["tuya_status" := v]> r).
Proof.
  apply (for_each_Ok (λ done l' tr,
    let fetched := (devices_fetched tr).*2 in
    kind_of <$> tr
    = concat ((λ ds, home_kinds (tuya_client (_client self)) (length ets)
                       (length ds)) <$> fetched)
    ∧ sleeps tr
      = replicate (length done * (2 + length ets) + length (concat fetched))
          (delay_between_calls self)
    ∧ (settings_fetched tr).*1 = Device.id <$> concat fetched
    ∧ dom (settings l')
      = dom (settings l) ∪ list_to_set (Device.id <$> concat fetched)
    ∧ (∀ device_id st,
         settings l' !! device_id = Some st →
         settings l !! device_id = Some st
         ∨ ∃ r v, (device_id, r) ∈ settings_fetched tr
                  ∧ st = <["tuya_status" := v]> r))).
  { simpl. split_and!; try done.
    - by rewrite (right_id_L ∅ (∪)).
    - by left. }
  intros done home a a' tr0 tr1 σ0 σ1 (Hk & Hs & Hf & Hdom & Hent) Hbody.
  apply home_body_runs in Hbody
    as (ds & ms & v & l1 & l2 & l3 & σa & σb & σc & tr_ev & tr_dev
        & Hl1 & Hev & Hds & Hl' & ->).
  pose proof (event_types_loop _ _ _ _ _ _ _ _ Hev) as (_ & [Hdev_ev _] & _).
  pose proof (devices_loop _ _ _ _ _ _ _ _ Hds) as (_ & (Hdev_dev & _) & _).
  apply event_types_loop_calls in Hev as (Hk_ev & Hs_ev & Hf_ev & Hl2).
  apply devices_loop_calls in Hds
    as (Hk_dev & Hs_dev & Hf_dev & Hdom_dev & Hent_dev).
  destruct (tuya_calls_quiet self v) as (Hq1 & Hq2 & Hq3).
  set (tr1 := get_devices_ev home (Ok ds) :: _).
  assert (devices_fetched tr1 = [(home, ds)]) as Hfd1.
  { unfold tr1. repeat (rewrite ?devices_fetched_app; simpl).
    by rewrite Hdev_ev, Hdev_dev, Hq3. }
  assert (sleeps tr1
          = replicate (2 + length ets + length ds) (delay_between_calls self))
    as Hs1.
  { unfold tr1. repeat (rewrite ?sleeps_app; simpl).
    rewrite Hs_ev, Hs_dev, Hq1.
    apply eq_sym, (replicate_as_Forall _ (S (S (length ets + length ds)))).
    split.
    - simpl. rewrite !length_app, !length_replicate. simpl. lia.
    - repeat (apply Forall_cons; split; [done|]).
      repeat (apply Forall_app; split);
        auto using Forall_replicate_eq. }
  assert (settings_fetched tr1 = settings_fetched tr_dev) as Hf1.
  { unfold tr1. repeat (rewrite ?settings_fetched_app; simpl).
    by rewrite Hf_ev, Hq2, app_nil_r. }
  assert (kind_of <$> tr1
          = home_kinds (tuya_client (_client self)) (length ets) (length ds))
    as Hk1 by (by apply home_kinds_of_trace).
  clearbody tr1. cbv zeta in *.
  rewrite fmap_app, sleeps_app, settings_fetched_app, devices_fetched_app,
    Hfd1, Hs1, Hf1, Hk, Hk1, Hs, !fmap_app, !concat_app, !fmap_app, Hf, Hf_dev,
    length_app, list_to_set_app_L.
  simpl. rewrite !app_nil_r.
  split_and!; try done.
  - change (?x :: ?y :: replicate ?n ?z) with (replicate (S (S n)) x).
    rewrite <-replicate_add. f_equal. rewrite length_app. lia.
  - by rewrite Hl', Hdom_dev, Hl2, Hl1, Hdom, (assoc_L (∪)).
  - intros device_id st Hlook. rewrite Hl' in Hlook.
    destruct (Hent_dev _ _ Hlook) as [Hold|(r & v' & Hin & ->)].
    + rewrite Hl2, Hl1 in Hold.
      destruct (Hent _ _ Hold) as [?|(r & v' & Hin & ->)]; [by left|].
      right. exists r, v'. split; [|done]. apply elem_of_app. by left.
    + right. exists r, v'. split; [|done]. apply elem_of_app. by right.
Qed.

(** ** The status stored with the settings *)

Lemma status_answered_app_l self tr1 tr2 v :
  status_answered self tr1 v → status_answered self (tr1 ++ tr2) v.
Proof.
  unfold status_answered. destruct (tuya_client (_client self)); [|done].
  intros ?. apply elem_of_app. by left.
Qed.

Lemma status_answered_app_r self tr1 tr2 v :
  status_answered self tr2 v → status_answered self (tr1 ++ tr2) v.
Proof.
  unfold status_answered. destruct (tuya_client (_client self)); [|done].
  intros ?. apply elem_of_app. by right.
Qed.

Lemma device_body_status self home device l l' σ σ' tr :
  device_body self home device l σ = (σ', tr, Ok l') →
  ∃ st v,
    (Device.id device, st) ∈ settings_fetched tr
    ∧ status_answered self tr v
    ∧ settings l'
      = <[Device.id device := <["tuya_status" := v]> st]> (settings l).
Proof.
  unfold device_body, status_answered. intros Hrun.
  apply bind_Ok in Hrun as (σa & tra & st & trb & Hget & Hrun & ->).
  apply bind_Ok in Hrun as (σb & trc & lb & trd & Htuya & Hrun & ->).
  apply await_run in Hget as (_ & _ & ->).
  assert (∀ v, alter (<["tuya_status" := v]>) (Device.id device)
                 (<[Device.id device := st]> (settings l))
               = <[Device.id device := <["tuya_status" := v]> st]>
                   (settings l)) as Halter.
  { intros v. apply map_eq. intros k. rewrite lookup_alter.
    case_decide; subst; by rewrite ?lookup_insert_eq, ?lookup_insert_ne. }
  destruct (tuya_client (_client self)); run_inv; subst; simpl.
  - eexists st, _. split_and!; [apply list_elem_of_here| |apply Halter].
    apply list_elem_of_further, list_elem_of_here.
  - exists st, VNone. split_and!; [apply list_elem_of_here|done|apply Halter].
Qed.

Lemma devices_loop_status self home ds l l' σ σ' tr :
  for_each ds (device_body self home) l σ = (σ', tr, Ok l') →
  ∀ device_id st,
    settings l' !! device_id = Some st →
    settings l !! device_id = Some st
    ∨ ∃ answer v,
        (device_id, answer) ∈ settings_fetched tr
        ∧ status_answered self tr v
        ∧ st = <["tuya_status" := v]> answer.
Proof.
  apply (for_each_Ok (λ (_ : list Device.t) l' tr,
    ∀ device_id st,
      settings l' !! device_id = Some st →
      settings l !! device_id = Some st
      ∨ ∃ answer v,
          (device_id, answer) ∈ settings_fetched tr
          ∧ status_answered self tr v
          ∧ st = <["tuya_status" := v]> answer)).
  { intros device_id st ?. by left. }
  intros _ device a a' tr0 tr1 σ0 σ1 Hent Hbody.
  apply device_body_status in Hbody as (st & v & Hin & Hv & Hsets).
  intros device_id st' Hlook. rewrite Hsets in Hlook.
  rewrite settings_fetched_app.
  destruct (decide (device_id = Device.id device)) as [->|Hne].
  - rewrite lookup_insert_eq in Hlook. injection Hlook as <-.
    right. exists st, v. split_and!; [|by apply status_answered_app_r|done].
    apply elem_of_app. by right.
  - rewrite lookup_insert_ne in Hlook by done.
    destruct (Hent _ _ Hlook) as [?|(r & v' & Hin' & Hv' & ->)]; [by left|].
    right. exists r, v'. split_and!; [|by apply status_answered_app_l|done].
    apply elem_of_app. by left.
Qed.

Lemma homes_loop_status self ets homes l l' σ σ' tr :
  for_each homes (home_body self ets) l σ = (σ', tr, Ok l') →
  ∀ device_id st,
    settings l' !! device_id = Some st →
    settings l !! device_id = Some st
    ∨ ∃ answer v,
        (device_id, answer) ∈ settings_fetched tr
        ∧ status_answered self tr v
        ∧ st = <["tuya_status" := v]> answer.
Proof.
  apply (for_each_Ok (λ (_ : list Home.t) l' tr,
    ∀ device_id st,
      settings l' !! device_id = Some st →
      settings l !! device_id = Some st
      ∨ ∃ answer v,
          (device_id, answer) ∈ settings_fetched tr
          ∧ status_answered self tr v
          ∧ st = <["tuya_status" := v]> answer)).
  { intros device_id st ?. by left. }
  intros _ home a a' tr0 tr1 σ0 σ1 Hent Hbody.
  apply home_body_runs in Hbody
    as (ds & ms & v & l1 & l2 & l3 & σa & σb & σc & tr_ev & tr_dev
        & Hl1 & Hev & Hds & Hl' & ->).
  apply event_types_loop_calls in Hev as (_ & _ & _ & Hl2).
  pose proof (devices_loop_status _ _ _ _ _ _ _ _ Hds) as Hent_dev.
  intros device_id st Hlook. rewrite Hl' in Hlook.
  assert (∀ x y (t : list call), x :: y :: tr_ev ++ tr_dev ++ t
            = [x; y] ++ tr_ev ++ tr_dev ++ t) as Hshape by done.
  destruct (Hent_dev _ _ Hlook) as [Hold|(r & v' & Hin & Hv & ->)].
  - rewrite Hl2, Hl1 in Hold.
    destruct (Hent _ _ Hold) as [?|(r & v' & Hin & Hv & ->)]; [by left|].
    right. exists r, v'. split_and!; [|by apply status_answered_app_l|done].
    rewrite settings_fetched_app. apply elem_of_app. by left.
  - right. exists r, v'. rewrite Hshape. split_and!; [| |done].
    + rewrite !settings_fetched_app. apply elem_of_app. right.
      apply elem_of_app. right. apply elem_of_app. right.
      apply elem_of_app. by left.
    + apply status_answered_app_r, status_answered_app_r,
        status_answered_app_r, status_answered_app_l. done.
Qed.

(** C1: a refresh has two outcomes and no third.  Either it returns the
    mapping with exactly the seven keys [homes], [devices], [meals],
    [events_by_home_and_type], [event_types], [settings] and [base_data],
    every one of them filled from a complete traversal: no call failed;
    [homes] is the answer of [get_homes] and [event_types] the
    enumeration; the devices, the meals and the events of every listed
    home were fetched and [devices], [meals] and the events mapping hold
    all of them; the settings of every device in [devices] were fetched
    and [settings] has an entry for exactly these devices, each being the
    answer of [get_settings] with the [tuya_status] of the run; and
    [base_data] holds the [tuya_status] computed after the meals of the
    last home.  Or it raises [UpdateFailed] wrapping the original cause. *)
Theorem update_complete_or_UpdateFailed self σ :
  match _async_update_data get_event_types self σ with
  | (_, tr, Ok d) =>
      ∃ homes devices meals events settings base_data,
        d = snapshot homes devices meals events get_event_types settings
              base_data
        ∧ dom d
          = list_to_set
              ["homes"; "devices"; "meals"; "events_by_home_and_type";
               "event_types"; "settings"; "base_data"]
        ∧ failures tr = []
        ∧ head tr = Some (get_homes_ev (Ok homes))
        ∧ ((devices_fetched tr).*1 = homes
           ∧ devices = concat (devices_fetched tr).*2)
        ∧ ((meals_fetched tr).*1 = homes
           ∧ meals = concat (meals_fetched tr).*2)
        ∧ ((events_fetched tr).*1
           = (λ p, (p.1, from_date, to_date, str_event_type p.2))
               <$> pairs homes get_event_types
           ∧ events
             = store_all ∅
                 (zip ((λ p, key p.1 p.2) <$> pairs homes get_event_types)
                    (events_fetched tr).*2))
        ∧ ((settings_fetched tr).*1 = Device.id <$> devices
           ∧ dom settings = list_to_set (Device.id <$> devices)
           ∧ ∀ device_id st,
               settings !! device_id = Some st →
               ∃ answer v,
                 (device_id, answer) ∈ settings_fetched tr
                 ∧ status_answered self tr v
                 ∧ st = <["tuya_status" := v]> answer)
        ∧ (∃ home ms v tr0,
             last homes = Some home
             ∧ tr = tr0 ++ get_meals_ev home (Ok ms) :: tuya_calls self v
                    ++ [sleep_ev (delay_between_calls self)]
             ∧ (tuya_client (_client self) = false → v = VNone)
             ∧ base_data = {["tuya_status" := v]})
  | (_, tr, Raise e) =>
      ∃ cause,
        e = UpdateFailed ("Error communicating with API: " +:+ str_exn cause)
              cause
        ∧ (failures tr = [cause]
           ∨ cause = UnboundLocalError "base_data" ∧ failures tr = [])
  end.
Proof.
  destruct (_async_update_data get_event_types self σ) as [[σ' tr] [d|e]]
    eqn:Hrun.
  - apply update_Ok_loop in Hrun
      as (homes & σ1 & tr1 & l & bd & Hloop & -> & Hbd & ->).
    pose proof Hloop as Hrep. apply reports_for_each in Hrep;
      [|intros; apply reports_home_body].
    pose proof (homes_loop _ _ _ _ _ _ _ _ Hloop)
      as ([Hd1 Hd2] & [Hm1 Hm2] & [He1 He2] & _).
    pose proof (homes_loop_calls _ _ _ _ _ _ _ _ Hloop)
      as (_ & _ & Hf & Hdom & _).
    pose proof (homes_loop_status _ _ _ _ _ _ _ _ Hloop) as Hent.
    apply homes_loop_last in Hloop
      as [(_ & -> & _)|(home & ms & v & tr0 & Hlast & -> & Hb & Hv)];
      [done|].
    rewrite Hb in Hbd. injection Hbd as <-.
    simpl in Hd2, Hm2, He2, Hdom.
    rewrite dom_empty_L, (left_id_L ∅ (∪)) in Hdom.
    exists homes, (devices l), (meals l), (events_by_home_and_type l),
      (settings l), {["tuya_status" := v]}.
    rewrite dom_snapshot.
    split; [done|]. split; [done|]. split; [done|]. split; [done|].
    split; [by rewrite devices_fetched_cons|].
    split; [by rewrite meals_fetched_cons|].
    split; [by rewrite events_fetched_cons|].
    split.
    + split_and!; [by rewrite Hd2|by rewrite Hd2|].
      intros device_id st Hlook.
      destruct (Hent _ _ Hlook) as [?|(r & v' & Hin & Hv' & ->)]; [done|].
      exists r, v'. split_and!; [done| |done].
      by apply (status_answered_app_r self [_]).
    + by exists home, ms, v, (get_homes_ev (Ok homes) :: tr0).
  - apply update_Raise in Hrun as (cause & Hrun%fetch_Raise & ->).
    by exists cause.
Qed.

(** X5: the calls of a successful refresh, in order: [get_homes], then
    for every home its devices and a sleep, for every event type the
    events and a sleep, for every device of the home its settings, the
    local status if a backend is configured, and a sleep, then the meals
    of the home, the local status if a backend is configured, and a
    sleep. *)
Theorem refresh_call_order self σ σ' tr d :
  _async_update_data get_event_types self σ = (σ', tr, Ok d) →
  kind_of <$> tr
  = KHomes
    :: concat ((λ ds, home_kinds (tuya_client (_client self))
                        (length get_event_types) (length ds))
               <$> (devices_fetched tr).*2).
Proof.
  intros (homes & σ1 & tr1 & l & bd & Hloop & -> & Hbd & ->)%update_Ok_loop.
  apply homes_loop_calls in Hloop as (Hk & _).
  rewrite fmap_cons, Hk, devices_fetched_cons. done.
Qed.

(** X6: a successful refresh sleeps twice per home, once more per home
    and event type, and once per device, every time for
    [delay_between_calls]. *)
Theorem refresh_sleeps self σ σ' tr d :
  _async_update_data get_event_types self σ = (σ', tr, Ok d) →
  ∃ homes devices,
    d !! "homes" = Some (SHomes homes)
    ∧ d !! "devices" = Some (SDevices devices)
    ∧ sleeps tr
      = replicate
          (length homes * (2 + length get_event_types) + length devices)
          (delay_between_calls self).
Proof.
  intros (homes & σ1 & tr1 & l & bd & Hloop & -> & Hbd & ->)%update_Ok_loop.
  pose proof (homes_loop _ _ _ _ _ _ _ _ Hloop) as ([_ Hd] & _).
  apply homes_loop_calls in Hloop as (_ & Hs & _).
  exists homes, (devices l). split_and!; try done.
  simpl in Hd. by rewrite Hd.
Qed.

(** X7: after a successful refresh, [settings] has an entry for exactly
    the ids of the devices in [devices], and [get_settings] succeeded once
    for every one of those devices, in their order. *)
Theorem settings_keys_are_device_ids self σ σ' tr d :
  _async_update_data get_event_types self σ = (σ', tr, Ok d) →
  ∃ devices settings,
    d !! "devices" = Some (SDevices devices)
    ∧ d !! "settings" = Some (SSettings settings)
    ∧ dom settings = list_to_set (Device.id <$> devices)
    ∧ (settings_fetched tr).*1 = Device.id <$> devices.
Proof.
  intros (homes & σ1 & tr1 & l & bd & Hloop & -> & Hbd & ->)%update_Ok_loop.
  pose proof (homes_loop _ _ _ _ _ _ _ _ Hloop) as ([_ Hd] & _).
  apply homes_loop_calls in Hloop as (_ & _ & Hf & Hdom & _).
  exists (devices l), (settings l). simpl in Hd, Hdom.
  rewrite dom_empty_L, (left_id_L ∅ (∪)) in Hdom.
  split_and!; try done; by rewrite Hd.
Qed.

(** X8: after a successful refresh, every entry of [settings] is a
    dictionary that [get_settings] returned for that device id, with the
    field [tuya_status] set; the field is there with or without a local
    backend, and a [tuya_status] in the answer of the client is
    overwritten. *)
Theorem settings_entries_are_answers self σ σ' tr d :
  _async_update_data get_event_types self σ = (σ', tr, Ok d) →
  ∃ settings,
    d !! "settings" = Some (SSettings settings)
    ∧ ∀ device_id st,
        settings !! device_id = Some st →
        ∃ answer v,
          (device_id, answer) ∈ settings_fetched tr
          ∧ st = <["tuya_status" := v]> answer
          ∧ st !! "tuya_status" = Some v
          ∧ ∀ field, field ≠ "tuya_status" → st !! field = answer !! field.
Proof.
  intros (homes & σ1 & tr1 & l & bd & Hloop & -> & Hbd & ->)%update_Ok_loop.
  apply homes_loop_calls in Hloop as (_ & _ & _ & _ & Hent).
  exists (settings l). split; [done|]. intros device_id st Hlook.
  destruct (Hent _ _ Hlook) as [Hnone|(r & v & Hin & ->)]; [done|].
  exists r, v. split_and!; try done.
  - apply lookup_insert_eq.
  - intros field Hne. by apply lookup_insert_ne.
Qed.

(** ** The keys of the events *)

Lemma dom_store_all {V} (m : gmap string V) kvs :
  dom (store_all m kvs) = dom m ∪ list_to_set kvs.*1.
Proof.
  induction kvs as [|kv kvs IH] using rev_ind.
  - simpl. by rewrite (right_id_L ∅ (∪)).
  - rewrite store_all_snoc, dom_insert_L, IH, fmap_app, list_to_set_app_L.
    simpl. rewrite (right_id_L ∅ (∪)), (comm_L (∪) {[kv.1]}).
    by rewrite (assoc_L (∪)).
Qed.

(** X9: after a successful refresh, the keys of [events_by_home_and_type]
    are exactly the keys of the (home, event type) pairs visited. *)
Theorem events_keys_are_pair_keys self σ σ' tr d :
  _async_update_data get_event_types self σ = (σ', tr, Ok d) →
  ∃ homes events,
    d !! "homes" = Some (SHomes homes)
    ∧ d !! "events_by_home_and_type" = Some (SEvents events)
    ∧ dom events
      = list_to_set ((λ p, key p.1 p.2) <$> pairs homes get_event_types).
Proof.
  intros (homes & σ1 & tr1 & l & bd & Hloop & -> & Hbd & ->)%update_Ok_loop.
  apply homes_loop in Hloop as (_ & _ & [He1 He2] & _).
  exists homes, (events_by_home_and_type l). split_and!; try done.
  rewrite He2, dom_store_all. simpl.
  rewrite dom_empty_L, (left_id_L ∅ (∪)), fst_zip; [done|].
  by rewrite !length_fmap, <-(length_fmap fst (events_fetched tr1)), He1,
    length_fmap.
Qed.

Lemma no_underscore_cons c s :
  no_underscore (String c s) → String c "" ≠ "_" ∧ no_underscore s.
Proof.
  unfold no_underscore. simpl. intros [Hp Hs]%orb_false_iff. split; [|done].
  intros [= ->]. simpl in Hp. by destruct s.
Qed.

(** An underscore after a prefix without underscores is the first one:
    the two parts of the string are determined. *)
Lemma append_underscore_inj a a' b b' :
  no_underscore a → no_underscore a' →
  a +:+ "_" +:+ b = a' +:+ "_" +:+ b' → a = a' ∧ b = b'.
Proof.
  revert a'. induction a as [|c a IH]; intros [|c' a'] Ha Ha' Heq;
    unfold String.append in Heq; fold String.append in Heq.
  - by injection Heq as ->.
  - injection Heq as <- _. by apply no_underscore_cons in Ha' as [? _].
  - injection Heq as -> _. by apply no_underscore_cons in Ha as [? _].
  - injection Heq as -> Heq.
    apply no_underscore_cons in Ha as [_ Ha].
    apply no_underscore_cons in Ha' as [_ Ha'].
    destruct (IH a' Ha Ha' Heq) as [-> ->]. done.
Qed.

Lemma pairs_cons home homes (ets : list event_type) :
  pairs (home :: homes) ets = ((λ et, (home, et)) <$> ets) ++ pairs homes ets.
Proof. done. Qed.

Lemma NoDup_pairs homes ets :
  NoDup (Home.id <$> homes) → NoDup (event_type_str <$> ets) →
  NoDup ((λ p, (Home.id p.1, event_type_str p.2)) <$> pairs homes ets).
Proof.
  intros Hh He. induction homes as [|home homes IH].
  - constructor.
  - rewrite fmap_cons in Hh. apply NoDup_cons in Hh as [Hnew Hh].
    rewrite pairs_cons, fmap_app. apply NoDup_app. split_and!.
    + rewrite <-list_fmap_compose.
      change ((λ p : Home.t * event_type, (Home.id p.1, event_type_str p.2))
              ∘ (λ et, (home, et)))
        with (pair (Home.id home) ∘ event_type_str).
      rewrite list_fmap_compose. apply NoDup_fmap_2_strong; [|done].
      by intros x y _ _ [= ->].
    + intros [id s] Hin Hin'.
      apply list_elem_of_fmap in Hin as ([h et] & [= -> ->] & Hin).
      apply list_elem_of_fmap in Hin as (et' & [= -> ->] & _).
      apply list_elem_of_fmap in Hin' as ([h' et''] & [= Hid _] & Hin').
      apply elem_of_pairs in Hin' as [Hh' _]. apply Hnew. simpl in Hid.
      rewrite Hid. apply list_elem_of_fmap. by exists h'.
    + by apply IH.
Qed.

(** X10: when the ids of the listed homes contain no underscore and are
    pairwise different, and the event types have pairwise different
    string forms, no two pairs share a key: after a successful refresh
    every (home, event type) pair finds the list fetched for it under its
    key. *)
Theorem events_kept_without_underscore self σ σ' tr d homes :
  _async_update_data get_event_types self σ = (σ', tr, Ok d) →
  d !! "homes" = Some (SHomes homes) →
  Forall (λ home, no_underscore (Home.id home)) homes →
  NoDup (Home.id <$> homes) →
  NoDup (event_type_str <$> get_event_types) →
  each_pair_keeps_its_events get_event_types tr d.
Proof.
  intros (homes' & σ1 & tr1 & l & bd & Hloop & -> & Hbd & ->)%update_Ok_loop.
  intros [= <-] Hno Hids Hets.
  apply homes_loop in Hloop as (_ & _ & [He1 He2] & _).
  exists homes', (events_by_home_and_type l). split_and!; try done.
  intros i home et es Hi Hes. rewrite He2. simpl.
  apply (lookup_store_all_last _ _ i).
  - apply lookup_zip_with_Some. exists (key home et), es.
    split_and!; try done. by rewrite list_lookup_fmap, Hi.
  - intros j [k es'] Hij Hj Hk. simpl in Hk. subst k.
    apply lookup_zip_with_Some in Hj as (k' & es'' & [= Hk _] & Hj & _).
    subst k'. rewrite list_lookup_fmap in Hj.
    destruct (pairs homes' get_event_types !! j) as [[home' et']|] eqn:Hp;
      [|done].
    injection Hj as Hkey. unfold key in Hkey. simpl in Hkey.
    assert (home ∈ homes') as Hin.
    { pose proof (list_elem_of_lookup_2 _ _ _ Hi) as Hmem.
      by apply elem_of_pairs in Hmem as [? _]. }
    assert (home' ∈ homes') as Hin'.
    { pose proof (list_elem_of_lookup_2 _ _ _ Hp) as Hmem.
      by apply elem_of_pairs in Hmem as [? _]. }
    rewrite Forall_forall in Hno.
    apply append_underscore_inj in Hkey as [Hid Hstr]; [|by apply Hno..].
    pose proof (NoDup_pairs homes' get_event_types Hids Hets) as Hnd.
    assert (i = j); [|lia].
    eapply (NoDup_lookup _ i j); [exact Hnd|..];
      rewrite list_lookup_fmap; [by rewrite Hi|rewrite Hp]; simpl;
      by rewrite Hid, Hstr.
Qed.

(** ** Keys that cannot collide *)

Lemma ends_with_unfold suffix s :
  ends_with suffix s
  = String.eqb suffix s
    || match s with
       | EmptyString => false
       | String _ s' => ends_with suffix s'
       end.
Proof. by destruct s. Qed.

Lemma ends_with_append x suffix : ends_with suffix (x +:+ suffix) = true.
Proof.
  induction x as [|c x IH].
  - rewrite ends_with_unfold. apply orb_true_iff. left. apply String.eqb_refl.
  - change (String c x +:+ suffix) with (String c (x +:+ suffix)).
    rewrite ends_with_unfold. apply orb_true_iff. by right.
Qed.

Lemma keys_unambiguous_spec strs s t x :
  keys_unambiguous strs = true → s ∈ strs → t ∈ strs →
  s ≠ x +:+ "_" +:+ t.
Proof.
  unfold keys_unambiguous. rewrite forallb_forall.
  intros Hall Hs%list_elem_of_In Ht%list_elem_of_In ->.
  specialize (Hall _ Hs). rewrite forallb_forall in Hall.
  specialize (Hall _ Ht). by rewrite ends_with_append in Hall.
Qed.

(** Two strings with an underscore in the middle that are equal: the
    parts are equal, or the second part of one ends with an underscore
    and the second part of the other. *)
Lemma append_underscore_cases a a' b b' :
  a +:+ "_" +:+ b = a' +:+ "_" +:+ b' →
  (a = a' ∧ b = b')
  ∨ (∃ x, b = x +:+ "_" +:+ b')
  ∨ (∃ x, b' = x +:+ "_" +:+ b).
Proof.
  revert a'. induction a as [|c a IH]; intros [|c' a'] Heq;
    unfold String.append in Heq; fold String.append in Heq.
  - left. by injection Heq as ->.
  - right. left. exists a'. by injection Heq as _ ->.
  - right. right. exists a. by injection Heq as _ <-.
  - injection Heq as -> Heq.
    destruct (IH a' Heq) as [[-> ->]|[?|?]]; auto.
Qed.


(** * Further properties of setup and unload *)

(** ** The test for [invalid_client] *)

Lemma append_nil_l s : "" +:+ s = s.
Proof. done. Qed.

Lemma append_cons c s t : String c s +:+ t = String c (s +:+ t).
Proof. done. Qed.

Lemma prefix_spec sub s :
  String.prefix sub s = true ↔ ∃ post, s = sub +:+ post.
Proof.
  revert s. induction sub as [|c sub IH]; intros s.
  - split; [by exists s|by destruct s].
  - destruct s as [|c' s]; simpl.
    + split; [done|]. by intros [post [=]].
    + destruct (Ascii.ascii_dec c c') as [->|Hne].
      * rewrite IH. split; intros [post Hpost]; exists post.
        -- by rewrite append_cons, <-Hpost.
        -- rewrite append_cons in Hpost. by injection Hpost.
      * split; [done|]. intros [post Hpost].
        rewrite append_cons in Hpost. by injection Hpost as <- _.
Qed.

Lemma contains_unfold sub s :
  contains sub s
  = String.prefix sub s
    || match s with
       | EmptyString => false
       | String _ s' => contains sub s'
       end.
Proof. by destruct s. Qed.

(** [contains] is the substring test. *)
Lemma contains_spec sub s :
  contains sub s = true ↔ ∃ pre post, s = pre +:+ sub +:+ post.
Proof.
  split.
  - induction s as [|c s IH]; rewrite contains_unfold.
    + rewrite orb_false_r. intros [post ->]%prefix_spec. by exists "", post.
    + intros [[post ->]%prefix_spec|Hin]%orb_true_iff; [by exists "", post|].
      destruct (IH Hin) as (pre & post & ->). by exists (String c pre), post.
  - intros (pre & post & ->). induction pre as [|c pre IH].
    + rewrite append_nil_l, contains_unfold.
      apply orb_true_iff. left. apply prefix_spec. by exists post.
    + rewrite append_cons, contains_unfold. apply orb_true_iff. by right.
Qed.

(** X11: when [client.initialize()] raises during setup, the setup raises
    [ConfigEntryAuthFailed] exactly if [invalid_client] occurs, letter for
    letter, somewhere in the text of the exception; otherwise it returns
    [False]. *)
Theorem setup_auth_failure_iff_substring (hass : HomeAssistant W) entry σ w' e :
  initialize (client_of new_client entry) (world σ) = (w', Raise e) →
  let outcome := (async_setup_entry DOMAIN new_client hass entry σ).2 in
  ((∃ pre post, str_exn e = pre +:+ "invalid_client" +:+ post) →
   outcome
   = Raise (ConfigEntryAuthFailed
              "Invalid client credentials. Please re-authenticate." e))
  ∧ (¬ (∃ pre post, str_exn e = pre +:+ "invalid_client" +:+ post) →
     outcome = Ok false).
Proof.
  intros Hinit. unfold client_of in Hinit.
  unfold async_setup_entry, try_except, bind, await. simpl.
  rewrite Hinit. simpl.
  destruct (contains "invalid_client" (str_exn e)) eqn:Hc; simpl.
  - split; [done|]. intros []. by apply contains_spec.
  - split; [|done]. intros Hsub%contains_spec. congruence.
Qed.

(** ** The entry in [hass.data] *)

Lemma alter_setdefault {V} (f : V → V) (k : string) (v0 : V)
    (d : gmap string V) :
  alter f k (match d !! k with Some _ => d | None => <[k := v0]> d end)
  = <[k := f (default v0 (d !! k))]> d.
Proof.
  apply map_eq. intros k'. destruct (d !! k) as [v|] eqn:Hk; simpl;
    rewrite lookup_alter; case_decide; subst;
    by rewrite ?lookup_insert_eq, ?lookup_insert_ne, ?Hk.
Qed.

(** X12: a setup in which the initialization, the first refresh and the
    forwarding to the platforms succeed stores the client and a
    coordinator with a delay of half a second under the id of the entry
    (replacing what was stored under that id, keeping all other entries),
    forwards the six platforms, and returns [True]. *)
Theorem setup_stores_entry (hass : HomeAssistant W) entry σ w1 w2 w3 :
  let client := client_of new_client entry in
  let coordinator := new_coordinator client (Some (1 # 2)) in
  initialize client (world σ) = (w1, Ok tt) →
  async_config_entry_first_refresh hass coordinator w1 = (w2, Ok tt) →
  async_forward_entry_setups hass entry PLATFORMS w2 = (w3, Ok tt) →
  async_setup_entry DOMAIN new_client hass entry σ
  = ({| world := w3;
        hass_data :=
          <[DOMAIN :=
              <[entry_id entry :=
                  {| entry_client := client;
                     entry_coordinator := coordinator |}]>
                (default ∅ (hass_data σ !! DOMAIN))]>
            (hass_data σ) |},
     [initialize_ev (Ok tt); first_refresh_ev (Ok tt);
      forward_entry_setups_ev (entry_id entry)
        [SWITCH; SENSOR; SELECT; NUMBER; BUTTON; CALENDAR] (Ok tt)],
     Ok true).
Proof.
  intros client coordinator Hinit Hfirst Hforward.
  subst client coordinator. unfold client_of in *.
  unfold async_setup_entry, try_except, bind, await, get_hass_data,
    set_hass_data.
  simpl in *. rewrite Hinit. simpl. rewrite Hfirst. simpl. rewrite Hforward.
  simpl. by rewrite alter_setdefault.
Qed.

(** X13: when the first refresh fails during setup, its exception leaves
    the setup as it is (also when its text contains [invalid_client]);
    nothing is stored in [hass.data] and no platform is set up. *)
Theorem setup_first_refresh_raises (hass : HomeAssistant W) entry σ w1 w2 e :
  let client := client_of new_client entry in
  initialize client (world σ) = (w1, Ok tt) →
  async_config_entry_first_refresh hass
    (new_coordinator client (Some (1 # 2))) w1 = (w2, Raise e) →
  async_setup_entry DOMAIN new_client hass entry σ
  = ({| world := w2; hass_data := hass_data σ |},
     [initialize_ev (Ok tt); first_refresh_ev (Raise e)],
     Raise e).
Proof.
  intros client Hinit Hfirst. subst client. unfold client_of in *.
  unfold async_setup_entry, try_except, bind, await. simpl in *.
  rewrite Hinit. simpl. by rewrite Hfirst.
Qed.

(** X14: when forwarding the entry to the platforms fails, the exception
    leaves the setup, and the client and the coordinator stay stored in
    [hass.data]: the setup does not undo what it has stored. *)
Theorem setup_forward_raises_after_storing (hass : HomeAssistant W) entry σ
    w1 w2 w3 e :
  let client := client_of new_client entry in
  let coordinator := new_coordinator client (Some (1 # 2)) in
  initialize client (world σ) = (w1, Ok tt) →
  async_config_entry_first_refresh hass coordinator w1 = (w2, Ok tt) →
  async_forward_entry_setups hass entry PLATFORMS w2 = (w3, Raise e) →
  ∃ σ',
    async_setup_entry DOMAIN new_client hass entry σ
    = (σ',
       [initialize_ev (Ok tt); first_refresh_ev (Ok tt);
        forward_entry_setups_ev (entry_id entry) PLATFORMS (Raise e)],
       Raise e)
    ∧ (hass_data σ' !! DOMAIN) ≫= (.!! entry_id entry)
      = Some {| entry_client := client; entry_coordinator := coordinator |}.
Proof.
  intros client coordinator Hinit Hfirst Hforward.
  subst client coordinator. unfold client_of in *.
  unfold async_setup_entry, try_except, bind, await, get_hass_data,
    set_hass_data.
  simpl in *. rewrite Hinit. simpl. rewrite Hfirst. simpl. rewrite Hforward.
  simpl. eexists. split; [done|]. simpl.
  rewrite alter_setdefault, lookup_insert_eq. simpl.
  apply lookup_insert_eq.
Qed.

(** X15: the local backend is handed to the client only if the entry
    holds a truthy value for each of [tuya_client_id], [tuya_ip] and
    [tuya_local_key]; the credentials then carry these three values and
    the [tuya_version] of the entry, or 3.4 if the entry has none. *)
Theorem tuya_credentials_iff_all_truthy (data : gmap string value) :
  match tuya_credentials_of data with
  | Some credentials =>
      ∃ client_id ip local_key,
        (data !! "tuya_client_id" = Some client_id ∧ truthy client_id = true)
        ∧ (data !! "tuya_ip" = Some ip ∧ truthy ip = true)
        ∧ (data !! "tuya_local_key" = Some local_key
           ∧ truthy local_key = true)
        ∧ credentials !! "client_id" = Some client_id
        ∧ credentials !! "ip" = Some ip
        ∧ credentials !! "local_key" = Some local_key
        ∧ credentials !! "version"
          = Some (default (VFloat (34 # 10)) (data !! "tuya_version"))
        ∧ dom credentials
          = list_to_set ["client_id"; "ip"; "local_key"; "version"]
  | None =>
      ∃ key,
        key ∈ ["tuya_client_id"; "tuya_ip"; "tuya_local_key"]
        ∧ (data !! key = None ∨ ∃ v, data !! key = Some v ∧ truthy v = false)
  end.
Proof.
  unfold tuya_credentials_of, all_truthy. simpl.
  destruct (data !! "tuya_client_id") as [v1|] eqn:H1;
    [destruct (truthy v1) eqn:T1|]; simpl.
  2: { exists "tuya_client_id". split; [|right; by exists v1].
       apply list_elem_of_here. }
  2: { exists "tuya_client_id". split; [|by left].
       apply list_elem_of_here. }
  destruct (data !! "tuya_ip") as [v2|] eqn:H2;
    [destruct (truthy v2) eqn:T2|]; simpl.
  2: { exists "tuya_ip". split; [|right; by exists v2].
       apply list_elem_of_further, list_elem_of_here. }
  2: { exists "tuya_ip". split; [|by left].
       apply list_elem_of_further, list_elem_of_here. }
  destruct (data !! "tuya_local_key") as [v3|] eqn:H3;
    [destruct (truthy v3) eqn:T3|]; simpl.
  2: { exists "tuya_local_key". split; [|right; by exists v3].
       do 2 apply list_elem_of_further. apply list_elem_of_here. }
  2: { exists "tuya_local_key". split; [|by left].
       do 2 apply list_elem_of_further. apply list_elem_of_here. }
  exists v1, v2, v3. by split_and!.
Qed.

(** X16: when the platforms are unloaded but nothing is stored for the
    entry, the unload raises [KeyError] (for the name space, or for the id
    of the entry) without closing any client and without touching
    [hass.data]. *)
Theorem unload_missing_entry_KeyError (hass : HomeAssistant W) entry σ w1 :
  async_unload_platforms hass entry PLATFORMS (world σ) = (w1, Ok true) →
  (hass_data σ !! DOMAIN = None →
   async_unload_entry DOMAIN hass entry σ
   = ({| world := w1; hass_data := hass_data σ |},
      [unload_platforms_ev (entry_id entry) PLATFORMS (Ok true)],
      Raise (KeyError DOMAIN)))
  ∧ (∀ table,
       hass_data σ !! DOMAIN = Some table →
       table !! entry_id entry = None →
       async_unload_entry DOMAIN hass entry σ
       = ({| world := w1; hass_data := hass_data σ |},
          [unload_platforms_ev (entry_id entry) PLATFORMS (Ok true)],
          Raise (KeyError (entry_id entry)))).
Proof.
  intros Hunload.
  split; [intros Hnone|intros table Htable Hnone];
    unfold async_unload_entry, bind, await, get_hass_data, getitem;
    rewrite Hunload; simpl.
  - by rewrite Hnone.
  - rewrite Htable. simpl. by rewrite Hnone.
Qed.

(** X17: when closing the client fails, its exception leaves the unload
    and the entry stays stored in [hass.data], although the platforms are
    unloaded. *)
Theorem unload_close_raises_keeps_entry (hass : HomeAssistant W) entry σ
    w1 w2 table stored e :
  async_unload_platforms hass entry PLATFORMS (world σ) = (w1, Ok true) →
  hass_data σ !! DOMAIN = Some table →
  table !! entry_id entry = Some stored →
  close (entry_client stored) w1 = (w2, Raise e) →
  async_unload_entry DOMAIN hass entry σ
  = ({| world := w2; hass_data := hass_data σ |},
     [unload_platforms_ev (entry_id entry) PLATFORMS (Ok true);
      close_ev (Raise e)],
     Raise e).
Proof.
  intros Hunload Htable Hstored Hclose.
  unfold async_unload_entry, bind, await, get_hass_data, getitem.
  rewrite Hunload. simpl. rewrite Htable. simpl. rewrite Hstored. simpl.
  by rewrite Hclose.
Qed.

(** What is stored for entry [id] in name space [k]. *)
Lemma lookup_unloaded (d : gmap string (gmap string (entry_state W)))
    table k k' id id' :
  d !! k = Some table →
  k ≠ k' ∨ id ≠ id' →
  (<[k := delete id table]> d !! k') ≫= (.!! id') = (d !! k') ≫= (.!! id').
Proof.
  intros Htable Hne. destruct (decide (k = k')) as [<-|Hk].
  - rewrite lookup_insert_eq, Htable. simpl. destruct Hne as [?|Hid]; [done|].
    by apply lookup_delete_ne.
  - by rewrite lookup_insert_ne.
Qed.

(** X18: an unload, whatever its outcome, changes nothing in [hass.data]
    but the slot of its own entry: every other entry of the component and
    every other name space is as before, and no name space appears or
    disappears. *)
Theorem unload_touches_only_own_entry (hass : HomeAssistant W) entry σ :
  let σ' := (async_unload_entry DOMAIN hass entry σ).1.1 in
  dom (hass_data σ') = dom (hass_data σ)
  ∧ ∀ k id,
      k ≠ DOMAIN ∨ id ≠ entry_id entry →
      (hass_data σ' !! k) ≫= (.!! id) = (hass_data σ !! k) ≫= (.!! id).
Proof.
  unfold async_unload_entry, bind, await, get_hass_data, getitem,
    set_hass_data.
  destruct (async_unload_platforms hass entry PLATFORMS (world σ))
    as [w1 [[|]|e]]; simpl; [|done..].
  destruct (hass_data σ !! DOMAIN) as [table|] eqn:Htable; simpl; [|done].
  destruct (table !! entry_id entry) as [stored|] eqn:Hstored; simpl; [|done].
  destruct (close (entry_client stored) w1) as [w2 [[]|e]]; simpl; [|done].
  rewrite Htable. simpl. rewrite Hstored. simpl. split.
  - rewrite dom_insert_L. apply (elem_of_dom_2 (D:=gset string)) in Htable.
    apply set_eq. intros k. rewrite elem_of_union, elem_of_singleton.
    split; [by intros [->|?]|by right].
  - intros k id Hne. apply lookup_unloaded; [done|].
    destruct Hne as [?|?]; [left|right]; done.
Qed.


(** X20: a successful setup followed by a successful unload closes the
    client that the setup created and, if the component's table existed
    and held nothing under the id of the entry, leaves [hass.data] exactly
    as it was before the setup. *)
Theorem setup_then_unload_restores (hass : HomeAssistant W) entry σ
    w1 w2 w3 w4 w5 table :
  let client := client_of new_client entry in
  initialize client (world σ) = (w1, Ok tt) →
  async_config_entry_first_refresh hass
    (new_coordinator client (Some (1 # 2))) w1 = (w2, Ok tt) →
  async_forward_entry_setups hass entry PLATFORMS w2 = (w3, Ok tt) →
  async_unload_platforms hass entry PLATFORMS w3 = (w4, Ok true) →
  close client w4 = (w5, Ok tt) →
  hass_data σ !! DOMAIN = Some table →
  table !! entry_id entry = None →
  bind (async_setup_entry DOMAIN new_client hass entry)
    (λ _, async_unload_entry DOMAIN hass entry) σ
  = ({| world := w5; hass_data := hass_data σ |},
     [initialize_ev (Ok tt); first_refresh_ev (Ok tt);
      forward_entry_setups_ev (entry_id entry) PLATFORMS (Ok tt);
      unload_platforms_ev (entry_id entry) PLATFORMS (Ok true);
      close_ev (Ok tt)],
     Ok true).
Proof.
  intros client Hinit Hfirst Hforward Hunload Hclose Htable Hfree.
  subst client. unfold client_of in *.
  unfold async_setup_entry, async_unload_entry, try_except, bind, await,
    get_hass_data, set_hass_data, getitem.
  simpl in *. rewrite Hinit. simpl. rewrite Hfirst. simpl. rewrite Hforward.
  simpl. rewrite Hunload. simpl.
  rewrite alter_setdefault, Htable, lookup_insert_eq. simpl.
  rewrite lookup_insert_eq. simpl. rewrite Hclose. simpl.
  rewrite lookup_insert_eq. simpl. rewrite lookup_insert_eq. simpl.
  do 2 f_equal. f_equal.
  rewrite insert_insert_eq, delete_insert_eq, delete_id by done.
  by apply insert_id.
Qed.

End Properties.

(** * The component on the concrete collaborators *)


(** The refresh of the two homes: the devices are the two feeders, in the
    order of the homes. *)
Lemma devices_are_concatenation_witness :
  let run := Demo.two_homes false in
  let tr := Demo.trace_of run in
  let d := Demo.returned run in
  run = (run.1.1, tr, Ok d)
  ∧ ∃ homes,
      head tr = Some (get_homes_ev (Ok homes))
      ∧ d !! "homes" = Some (SHomes homes)
      ∧ (devices_fetched tr).*1 = homes
      ∧ d !! "devices" = Some (SDevices (concat (devices_fetched tr).*2)).
Proof.
  intros run tr d. split; [vm_compute; reflexivity|].
  apply (devices_are_concatenation Demo.event_types
           (Demo.coordinator (Demo.client false (Ok [Demo.kitchen; Demo.garden])))
           Demo.st0 run.1.1 tr d).
  vm_compute; reflexivity.
Defined.

Example two_homes_devices :
  Demo.returned (Demo.two_homes false) !! "devices"
  = Some (SDevices [Demo.feeder Demo.kitchen; Demo.feeder Demo.garden]).
Proof. vm_compute; reflexivity. Qed.

(** Why the enumeration must keep the keys apart: with the event types
    ["a_b"] and ["b"] and the homes ["1"] and ["1_a"], the key ["1_a_b"] of
    the first pair holds the empty list fetched for the last pair, not the
    event fetched for the first. *)
Lemma events_of_colliding_keys_lost :
  let run := Demo.colliding in
  run = (run.1.1, Demo.trace_of run, Ok (Demo.returned run))
  ∧ ¬ each_pair_keeps_its_events Demo.colliding_types (Demo.trace_of run)
        (Demo.returned run).
Proof.
  intros run. split; [vm_compute; reflexivity|].
  intros (homes & events & Hhomes & Hevents & Hkeep).
  assert (homes = [Demo.h1; Demo.h1a]) as ->.
  { vm_compute in Hhomes. by injection Hhomes. }
  specialize (Hkeep 0 Demo.h1 (ETStr "a_b") [Demo.the_event]).
  assert (events !! key Demo.h1 (ETStr "a_b") = Some []) as Hlast.
  { assert (SEvents events
            = default (SHomes [])
                (Demo.returned run !! "events_by_home_and_type")) as Heq
      by (by rewrite Hevents).
    vm_compute in Heq. injection Heq as ->. vm_compute; reflexivity. }
  rewrite Hkeep in Hlast; [discriminate| |]; vm_compute; reflexivity.
Qed.

Example colliding_key_holds_last_list :
  ∃ events,
    Demo.returned Demo.colliding !! "events_by_home_and_type"
    = Some (SEvents events)
    ∧ events !! "1_a_b" = Some []
    ∧ (events_fetched (Demo.trace_of Demo.colliding)).*2 !! 0
      = Some [Demo.the_event]
    ∧ key Demo.h1 (ETStr "a_b") = "1_a_b"
    ∧ key Demo.h1a (ETStr "b") = "1_a_b".
Proof. eexists. split_and!; vm_compute; reflexivity. Qed.

Example two_homes_meal_events :
  ∃ events,
    Demo.returned (Demo.two_homes false) !! "events_by_home_and_type"
    = Some (SEvents events)
    ∧ events !! "home-2_meal_dispensed"
      = Some [{| event_id := "home-2";
                 event_type_name := "EventType.meal_dispensed" |}]
    ∧ events !! "home-2_food_level_low" = Some []
    ∧ size events = 6.
Proof. eexists. split_and!; vm_compute; reflexivity. Qed.

(** C4: an [invalid_client] error during a refresh ought to surface as
    [ConfigEntryAuthFailed], as it does during setup.  It does not: a
    refresh whose first call is rejected with [invalid_client] raises the
    generic [UpdateFailed]. *)
Theorem refresh_invalid_client_is_UpdateFailed :
  let e := Error "invalid_client: Client authentication failed" in
  contains "invalid_client" (str_exn e) = true
  ∧ _async_update_data Demo.event_types
      (Demo.coordinator (Demo.client false (Raise e))) Demo.st0
    = ({| world := 1; hass_data := ∅ |},
       [get_homes_ev (Raise e)],
       Raise
         (UpdateFailed
            ("Error communicating with API: "
             +:+ "invalid_client: Client authentication failed") e)).
Proof. split; vm_compute; reflexivity. Qed.

Lemma tuya_status_None_without_backend_witness :
  let run := Demo.two_homes false in
  let d := Demo.returned run in
  run = (run.1.1, Demo.trace_of run, Ok d)
  ∧ ∃ settings base_data,
      d !! "settings" = Some (SSettings settings)
      ∧ d !! "base_data" = Some (SBase base_data)
      ∧ (∀ device_id st,
           settings !! device_id = Some st →
           st !! "tuya_status" = Some VNone)
      ∧ base_data !! "tuya_status" = Some VNone.
Proof.
  intros run d. split; [vm_compute; reflexivity|].
  apply (tuya_status_None_without_backend Demo.event_types
           (Demo.coordinator (Demo.client false (Ok [Demo.kitchen; Demo.garden])))
           Demo.st0 run.1.1 (Demo.trace_of run) d).
  - reflexivity.
  - vm_compute; reflexivity.
Defined.

(** With a local backend the status in [base_data] is the one queried
    last, after the meals of the second home. *)
Lemma base_data_of_last_home_witness :
  let self := Demo.coordinator (Demo.client true (Ok [Demo.kitchen; Demo.garden])) in
  let run := Demo.two_homes true in
  let tr := Demo.trace_of run in
  let d := Demo.returned run in
  run = (run.1.1, tr, Ok d)
  ∧ ∃ homes home ms v tr0,
      d !! "homes" = Some (SHomes homes)
      ∧ last homes = Some home
      ∧ tr = tr0 ++ get_meals_ev home (Ok ms) :: tuya_calls self v
             ++ [sleep_ev (delay_between_calls self)]
      ∧ (tuya_client (_client self) = false → v = VNone)
      ∧ d !! "base_data" = Some (SBase {["tuya_status" := v]}).
Proof.
  intros self run tr d. split; [vm_compute; reflexivity|].
  apply (base_data_of_last_home Demo.event_types self Demo.st0 run.1.1 tr d).
  vm_compute; reflexivity.
Defined.

Example two_homes_base_data :
  Demo.returned (Demo.two_homes true) !! "base_data"
  = Some (SBase {["tuya_status" := VInt 16]})
  ∧ last (Demo.trace_of (Demo.two_homes true)) = Some (sleep_ev (1 # 2))
  ∧ Demo.trace_of (Demo.two_homes true) !! 27
    = Some (get_tuya_status_ev (Ok (VInt 16)))
  ∧ Demo.trace_of (Demo.two_homes true) !! 26
    = Some (get_meals_ev Demo.garden (Ok [Demo.breakfast]))
  ∧ length (Demo.trace_of (Demo.two_homes true)) = 29.
Proof. split_and!; vm_compute; reflexivity. Qed.

Lemma no_homes_UpdateFailed_witness :
  let self := Demo.coordinator (Demo.client false (Ok [])) in
  get_homes (_client self) (world Demo.st0) = (1, Ok [])
  ∧ _async_update_data Demo.event_types self Demo.st0
    = ({| world := 1; hass_data := hass_data Demo.st0 |},
       [get_homes_ev (Ok [])],
       Raise
         (UpdateFailed
            ("Error communicating with API: "
             +:+ "cannot access local variable 'base_data' where it is not "
             +:+ "associated with a value")
            (UnboundLocalError "base_data"))).
Proof.
  intros self. split; [reflexivity|].
  apply (no_homes_UpdateFailed Demo.event_types self Demo.st0 1).
  reflexivity.
Defined.

Lemma setup_initialize_raises_witness :
  let hass := Demo.hass (Ok true) in
  let rejected := Error "invalid_client: Client authentication failed" in
  let unreachable := Error "Cannot connect to host" in
  (initialize (client_of Demo.new_client (Demo.entry "revoked")) 0
   = (1, Raise rejected)
   ∧ async_setup_entry Demo.DOMAIN Demo.new_client hass
       (Demo.entry "revoked") Demo.st0
     = ({| world := 1; hass_data := hass_data Demo.st0 |},
        [initialize_ev (Raise rejected)],
        if contains "invalid_client" (str_exn rejected) then
          Raise (ConfigEntryAuthFailed
                   "Invalid client credentials. Please re-authenticate."
                   rejected)
        else Ok false))
  ∧ (initialize (client_of Demo.new_client (Demo.entry "offline")) 0
     = (1, Raise unreachable)
     ∧ async_setup_entry Demo.DOMAIN Demo.new_client hass
         (Demo.entry "offline") Demo.st0
       = ({| world := 1; hass_data := hass_data Demo.st0 |},
          [initialize_ev (Raise unreachable)],
          if contains "invalid_client" (str_exn unreachable) then
            Raise (ConfigEntryAuthFailed
                     "Invalid client credentials. Please re-authenticate."
                     unreachable)
          else Ok false)).
Proof.
  intros hass rejected unreachable. split; (split; [reflexivity|]).
  - apply (setup_initialize_raises Demo.DOMAIN Demo.new_client hass
             (Demo.entry "revoked") Demo.st0 1 rejected).
    reflexivity.
  - apply (setup_initialize_raises Demo.DOMAIN Demo.new_client hass
             (Demo.entry "offline") Demo.st0 1 unreachable).
    reflexivity.
Defined.

Example setup_outcomes :
  (async_setup_entry Demo.DOMAIN Demo.new_client (Demo.hass (Ok true))
     (Demo.entry "revoked") Demo.st0).2
  = Raise (ConfigEntryAuthFailed
             "Invalid client credentials. Please re-authenticate."
             (Error "invalid_client: Client authentication failed"))
  ∧ (async_setup_entry Demo.DOMAIN Demo.new_client (Demo.hass (Ok true))
       (Demo.entry "offline") Demo.st0).2
    = Ok false
  ∧ (async_setup_entry Demo.DOMAIN Demo.new_client (Demo.hass (Ok true))
       (Demo.entry "a") Demo.st0).2
    = Ok true.
Proof. split_and!; vm_compute; reflexivity. Qed.

Lemma unload_closes_after_platforms_witness :
  let hass := Demo.hass (Ok false) in
  let entry := Demo.entry "a" in
  let σ := Demo.st_loaded in
  async_unload_platforms hass entry PLATFORMS (world σ) = (8, Ok false)
  ∧ async_unload_entry Demo.DOMAIN hass entry σ
    = ({| world := 8; hass_data := hass_data σ |},
       [unload_platforms_ev (entry_id entry) PLATFORMS (Ok false)],
       Ok false).
Proof.
  intros hass entry σ. split; [reflexivity|].
  apply (unload_closes_after_platforms Demo.DOMAIN hass entry σ 8 (Ok false));
    [reflexivity|discriminate].
Defined.

Example unload_after_success :
  let run :=
    async_unload_entry Demo.DOMAIN (Demo.hass (Ok true)) (Demo.entry "a")
      Demo.st_loaded in
  run.2 = Ok true
  ∧ run.1.2
    = [unload_platforms_ev "entry-1" PLATFORMS (Ok true); close_ev (Ok tt)]
  ∧ hass_data run.1.1 !! Demo.DOMAIN = Some ∅.
Proof. split_and!; vm_compute; reflexivity. Qed.

(** * The further properties on the concrete collaborators *)

(** A run that returned, as the triple of its final state, its trace and
    the mapping returned. *)
Lemma run_returned
    (run : state nat * list call * result (gmap string snapshot_value)) :
  is_ok run.2 = true →
  run = (run.1.1, Demo.trace_of run, Ok (Demo.returned run)).
Proof. destruct run as [[σ tr] [d|e]]; [done|discriminate]. Qed.

(** The refresh of the two homes, without and with a local backend. *)
Abbreviation quiet_self :=
  (Demo.coordinator (Demo.client false (Ok [Demo.kitchen; Demo.garden]))).
Abbreviation quiet_run :=
  (_async_update_data Demo.event_types quiet_self Demo.st0).
Abbreviation tuya_self :=
  (Demo.coordinator (Demo.client true (Ok [Demo.kitchen; Demo.garden]))).
Abbreviation tuya_run :=
  (_async_update_data Demo.event_types tuya_self Demo.st0).
Abbreviation colliding_run :=
  (_async_update_data Demo.colliding_types
     (Demo.coordinator Demo.colliding_client) Demo.st0).


(** The enumeration ["a_b"], ["b"] does not keep the keys apart. *)
Example colliding_types_ambiguous :
  keys_unambiguous (event_type_str <$> Demo.colliding_types) = false.
Proof. vm_compute; reflexivity. Qed.

(** A complete refresh of the two homes with a local backend. *)
Example two_homes_complete :
  ∃ settings,
    Demo.returned tuya_run
    = snapshot [Demo.kitchen; Demo.garden]
        [Demo.feeder Demo.kitchen; Demo.feeder Demo.garden]
        [Demo.breakfast; Demo.breakfast]
        (store_all ∅
           (zip ((λ p, key p.1 p.2)
                 <$> pairs [Demo.kitchen; Demo.garden] Demo.event_types)
              (events_fetched (Demo.trace_of tuya_run)).*2))
        Demo.event_types settings {["tuya_status" := VInt 16]}
    ∧ dom settings = list_to_set ["home-1-feeder"; "home-2-feeder"].
Proof. eexists. split; vm_compute; reflexivity. Qed.

Lemma meals_are_concatenation_witness :
  quiet_run
  = (quiet_run.1.1, Demo.trace_of quiet_run, Ok (Demo.returned quiet_run))
  ∧ ∃ homes,
      Demo.returned quiet_run !! "homes" = Some (SHomes homes)
      ∧ (meals_fetched (Demo.trace_of quiet_run)).*1 = homes
      ∧ Demo.returned quiet_run !! "meals"
        = Some (SMeals (concat (meals_fetched (Demo.trace_of quiet_run)).*2)).
Proof.
  assert (is_ok quiet_run.2 = true) as Hok by (vm_compute; reflexivity).
  split; [exact (run_returned _ Hok)|].
  exact (meals_are_concatenation Demo.event_types _ _ _ _ _
           (run_returned _ Hok)).
Defined.

Example two_homes_meals :
  Demo.returned quiet_run !! "meals"
  = Some (SMeals [Demo.breakfast; Demo.breakfast]).
Proof. vm_compute; reflexivity. Qed.

Lemma no_backend_no_status_query_witness :
  tuya_client (_client quiet_self) = false
  ∧ forallb (λ c, negb (is_tuya_query c)) quiet_run.1.2 = true.
Proof.
  split; [reflexivity|].
  exact (no_backend_no_status_query Demo.event_types quiet_self Demo.st0
           eq_refl).
Defined.

(** The cloud refuses the devices of the second home: the refresh stops
    there, fourteen calls in. *)
Example flaky_stops_at_second_home :
  Scenario.flaky.2
  = Raise (UpdateFailed
             "Error communicating with API: 429 Too Many Requests"
             (Error "429 Too Many Requests"))
  ∧ last (Demo.trace_of Scenario.flaky)
    = Some (get_devices_ev Demo.garden (Raise (Error "429 Too Many Requests")))
  ∧ length (Demo.trace_of Scenario.flaky) = 14.
Proof. split_and!; vm_compute; reflexivity. Qed.

Lemma refresh_call_order_witness :
  tuya_run
  = (tuya_run.1.1, Demo.trace_of tuya_run, Ok (Demo.returned tuya_run))
  ∧ kind_of <$> Demo.trace_of tuya_run
    = KHomes
      :: concat ((λ ds, home_kinds (tuya_client (_client tuya_self))
                          (length Demo.event_types) (length ds))
                 <$> (devices_fetched (Demo.trace_of tuya_run)).*2).
Proof.
  assert (is_ok tuya_run.2 = true) as Hok by (vm_compute; reflexivity).
  split; [exact (run_returned _ Hok)|].
  exact (refresh_call_order Demo.event_types _ _ _ _ _
           (run_returned _ Hok)).
Defined.

Example two_homes_call_order :
  kind_of <$> Demo.trace_of quiet_run
  = [KHomes;
     KDevices; KSleep; KEvents; KSleep; KEvents; KSleep; KEvents; KSleep;
     KSettings; KSleep; KMeals; KSleep;
     KDevices; KSleep; KEvents; KSleep; KEvents; KSleep; KEvents; KSleep;
     KSettings; KSleep; KMeals; KSleep].
Proof. vm_compute; reflexivity. Qed.

Lemma refresh_sleeps_witness :
  quiet_run
  = (quiet_run.1.1, Demo.trace_of quiet_run, Ok (Demo.returned quiet_run))
  ∧ ∃ homes devices,
      Demo.returned quiet_run !! "homes" = Some (SHomes homes)
      ∧ Demo.returned quiet_run !! "devices" = Some (SDevices devices)
      ∧ sleeps (Demo.trace_of quiet_run)
        = replicate
            (length homes * (2 + length Demo.event_types) + length devices)
            (delay_between_calls quiet_self).
Proof.
  assert (is_ok quiet_run.2 = true) as Hok by (vm_compute; reflexivity).
  split; [exact (run_returned _ Hok)|].
  exact (refresh_sleeps Demo.event_types _ _ _ _ _
           (run_returned _ Hok)).
Defined.

Example two_homes_sleeps :
  sleeps (Demo.trace_of quiet_run) = replicate 12 (1 # 2).
Proof. vm_compute; reflexivity. Qed.

Lemma settings_keys_are_device_ids_witness :
  quiet_run
  = (quiet_run.1.1, Demo.trace_of quiet_run, Ok (Demo.returned quiet_run))
  ∧ ∃ devices settings,
      Demo.returned quiet_run !! "devices" = Some (SDevices devices)
      ∧ Demo.returned quiet_run !! "settings" = Some (SSettings settings)
      ∧ dom settings = list_to_set (Device.id <$> devices)
      ∧ (settings_fetched (Demo.trace_of quiet_run)).*1
        = Device.id <$> devices.
Proof.
  assert (is_ok quiet_run.2 = true) as Hok by (vm_compute; reflexivity).
  split; [exact (run_returned _ Hok)|].
  exact (settings_keys_are_device_ids Demo.event_types _ _ _ _ _
           (run_returned _ Hok)).
Defined.

Lemma settings_entries_are_answers_witness :
  tuya_run
  = (tuya_run.1.1, Demo.trace_of tuya_run, Ok (Demo.returned tuya_run))
  ∧ ∃ settings,
      Demo.returned tuya_run !! "settings" = Some (SSettings settings)
      ∧ ∀ device_id st,
          settings !! device_id = Some st →
          ∃ answer v,
            (device_id, answer) ∈ settings_fetched (Demo.trace_of tuya_run)
            ∧ st = <["tuya_status" := v]> answer
            ∧ st !! "tuya_status" = Some v
            ∧ ∀ field, field ≠ "tuya_status" → st !! field = answer !! field.
Proof.
  assert (is_ok tuya_run.2 = true) as Hok by (vm_compute; reflexivity).
  split; [exact (run_returned _ Hok)|].
  exact (settings_entries_are_answers Demo.event_types _ _ _ _ _
           (run_returned _ Hok)).
Defined.

Example two_homes_settings_entry :
  ∃ settings,
    Demo.returned tuya_run !! "settings" = Some (SSettings settings)
    ∧ settings !! "home-2-feeder"
      = Some (<["tuya_status" := VInt 14]>
              (<["device" := VStr "home-2-feeder"]> {["volume" := VInt 3]}))
    ∧ size settings = 2.
Proof. eexists. split_and!; vm_compute; reflexivity. Qed.

Lemma events_keys_are_pair_keys_witness :
  colliding_run
  = (colliding_run.1.1, Demo.trace_of colliding_run,
     Ok (Demo.returned colliding_run))
  ∧ ∃ homes events,
      Demo.returned colliding_run !! "homes" = Some (SHomes homes)
      ∧ Demo.returned colliding_run !! "events_by_home_and_type"
        = Some (SEvents events)
      ∧ dom events
        = list_to_set
            ((λ p, key p.1 p.2) <$> pairs homes Demo.colliding_types).
Proof.
  assert (is_ok colliding_run.2 = true) as Hok by (vm_compute; reflexivity).
  split; [exact (run_returned _ Hok)|].
  exact (events_keys_are_pair_keys Demo.colliding_types _ _ _ _ _
           (run_returned _ Hok)).
Defined.

Example colliding_keys :
  ∃ events,
    Demo.returned colliding_run !! "events_by_home_and_type"
    = Some (SEvents events)
    ∧ size events = 3.
Proof. eexists. split; vm_compute; reflexivity. Qed.

Lemma events_kept_without_underscore_witness :
  (quiet_run
   = (quiet_run.1.1, Demo.trace_of quiet_run, Ok (Demo.returned quiet_run))
   ∧ Demo.returned quiet_run !! "homes"
     = Some (SHomes [Demo.kitchen; Demo.garden])
   ∧ Forall (λ home, no_underscore (Home.id home)) [Demo.kitchen; Demo.garden]
   ∧ NoDup (Home.id <$> [Demo.kitchen; Demo.garden])
   ∧ NoDup (event_type_str <$> Demo.event_types))
  ∧ each_pair_keeps_its_events Demo.event_types (Demo.trace_of quiet_run)
      (Demo.returned quiet_run).
Proof.
  assert (is_ok quiet_run.2 = true) as Hok by (vm_compute; reflexivity).
  assert (Demo.returned quiet_run !! "homes"
          = Some (SHomes [Demo.kitchen; Demo.garden])) as Hhomes
    by (vm_compute; reflexivity).
  assert (Forall (λ home, no_underscore (Home.id home))
            [Demo.kitchen; Demo.garden]) as Hno
    by (repeat constructor).
  assert (NoDup (Home.id <$> [Demo.kitchen; Demo.garden])) as Hids
    by (apply (bool_decide_unpack _); vm_compute; reflexivity).
  assert (NoDup (event_type_str <$> Demo.event_types)) as Hets
    by (apply (bool_decide_unpack _); vm_compute; reflexivity).
  split.
  - split_and!;
      [exact (run_returned _ Hok)|exact Hhomes|exact Hno|exact Hids
      |exact Hets].
  - exact (events_kept_without_underscore Demo.event_types _ _ _ _ _ _
             (run_returned _ Hok) Hhomes Hno Hids Hets).
Defined.

Lemma setup_auth_failure_iff_substring_witness :
  let e := Error "invalid_client: Client authentication failed" in
  let outcome :=
    (async_setup_entry Demo.DOMAIN Demo.new_client (Demo.hass (Ok true))
       (Demo.entry "revoked") Demo.st0).2 in
  initialize (client_of Demo.new_client (Demo.entry "revoked"))
    (world Demo.st0) = (1, Raise e)
  ∧ ((∃ pre post, str_exn e = pre +:+ "invalid_client" +:+ post) →
     outcome
     = Raise (ConfigEntryAuthFailed
                "Invalid client credentials. Please re-authenticate." e))
  ∧ (¬ (∃ pre post, str_exn e = pre +:+ "invalid_client" +:+ post) →
     outcome = Ok false).
Proof.
  intros e outcome.
  assert (initialize (client_of Demo.new_client (Demo.entry "revoked"))
            (world Demo.st0) = (1, Raise e)) as Hinit
    by (vm_compute; reflexivity).
  split; [exact Hinit|].
  exact (setup_auth_failure_iff_substring Demo.DOMAIN Demo.new_client
           (Demo.hass (Ok true)) (Demo.entry "revoked") Demo.st0 1 e Hinit).
Defined.

Example invalid_client_is_a_substring :
  ∃ pre post,
    "invalid_client: Client authentication failed"
    = pre +:+ "invalid_client" +:+ post.
Proof. by exists "", ": Client authentication failed". Qed.

Lemma setup_stores_entry_witness :
  let hass := Demo.hass (Ok true) in
  let entry := Demo.entry "a" in
  let client := client_of Demo.new_client entry in
  let coordinator := new_coordinator client (Some (1 # 2)) in
  (initialize client (world Demo.st0) = (1, Ok tt)
   ∧ async_config_entry_first_refresh hass coordinator 1 = (2, Ok tt)
   ∧ async_forward_entry_setups hass entry PLATFORMS 2 = (3, Ok tt))
  ∧ async_setup_entry Demo.DOMAIN Demo.new_client hass entry Demo.st0
    = ({| world := 3;
          hass_data :=
            <[Demo.DOMAIN :=
                <[entry_id entry :=
                    {| entry_client := client;
                       entry_coordinator := coordinator |}]>
                  (default ∅ (hass_data Demo.st0 !! Demo.DOMAIN))]>
              (hass_data Demo.st0) |},
       [initialize_ev (Ok tt); first_refresh_ev (Ok tt);
        forward_entry_setups_ev (entry_id entry)
          [SWITCH; SENSOR; SELECT; NUMBER; BUTTON; CALENDAR] (Ok tt)],
       Ok true).
Proof.
  intros hass entry client coordinator.
  assert (initialize client (world Demo.st0) = (1, Ok tt)) as Hinit
    by (vm_compute; reflexivity).
  assert (async_config_entry_first_refresh hass coordinator 1 = (2, Ok tt))
    as Hfirst by reflexivity.
  assert (async_forward_entry_setups hass entry PLATFORMS 2 = (3, Ok tt))
    as Hforward by reflexivity.
  split; [by split_and!|].
  exact (setup_stores_entry Demo.DOMAIN Demo.new_client hass entry Demo.st0
           1 2 3 Hinit Hfirst Hforward).
Defined.

Lemma setup_first_refresh_raises_witness :
  let e := Error "invalid_client: token expired" in
  let hass := Scenario.hass (Raise e) (Ok tt) (Ok true) in
  let entry := Demo.entry "a" in
  let client := client_of Demo.new_client entry in
  (initialize client (world Demo.st0) = (1, Ok tt)
   ∧ async_config_entry_first_refresh hass
       (new_coordinator client (Some (1 # 2))) 1 = (2, Raise e))
  ∧ async_setup_entry Demo.DOMAIN Demo.new_client hass entry Demo.st0
    = ({| world := 2; hass_data := hass_data Demo.st0 |},
       [initialize_ev (Ok tt); first_refresh_ev (Raise e)],
       Raise e).
Proof.
  intros e hass entry client.
  assert (initialize client (world Demo.st0) = (1, Ok tt)) as Hinit
    by (vm_compute; reflexivity).
  assert (async_config_entry_first_refresh hass
            (new_coordinator client (Some (1 # 2))) 1 = (2, Raise e))
    as Hfirst by reflexivity.
  split; [by split|].
  exact (setup_first_refresh_raises Demo.DOMAIN Demo.new_client hass entry
           Demo.st0 1 2 e Hinit Hfirst).
Defined.

Lemma setup_forward_raises_after_storing_witness :
  let e := Error "Platform sensor failed to load" in
  let hass := Scenario.hass (Ok tt) (Raise e) (Ok true) in
  let entry := Demo.entry "a" in
  let client := client_of Demo.new_client entry in
  let coordinator := new_coordinator client (Some (1 # 2)) in
  (initialize client (world Demo.st0) = (1, Ok tt)
   ∧ async_config_entry_first_refresh hass coordinator 1 = (2, Ok tt)
   ∧ async_forward_entry_setups hass entry PLATFORMS 2 = (3, Raise e))
  ∧ ∃ σ',
      async_setup_entry Demo.DOMAIN Demo.new_client hass entry Demo.st0
      = (σ',
         [initialize_ev (Ok tt); first_refresh_ev (Ok tt);
          forward_entry_setups_ev (entry_id entry) PLATFORMS (Raise e)],
         Raise e)
      ∧ (hass_data σ' !! Demo.DOMAIN) ≫= (.!! entry_id entry)
        = Some {| entry_client := client;
                  entry_coordinator := coordinator |}.
Proof.
  intros e hass entry client coordinator.
  assert (initialize client (world Demo.st0) = (1, Ok tt)) as Hinit
    by (vm_compute; reflexivity).
  assert (async_config_entry_first_refresh hass coordinator 1 = (2, Ok tt))
    as Hfirst by reflexivity.
  assert (async_forward_entry_setups hass entry PLATFORMS 2 = (3, Raise e))
    as Hforward by reflexivity.
  split; [by split_and!|].
  exact (setup_forward_raises_after_storing Demo.DOMAIN Demo.new_client hass
           entry Demo.st0 1 2 3 e Hinit Hfirst Hforward).
Defined.

Example credentials_need_all_three :
  tuya_credentials_of
    (<["tuya_client_id" := VStr "id"]>
     (<["tuya_ip" := VStr ""]> {["tuya_local_key" := VStr "key"]}))
  = None
  ∧ (tuya_credentials_of
       (<["tuya_client_id" := VStr "id"]>
        (<["tuya_ip" := VStr "10.0.0.7"]>
         {["tuya_local_key" := VStr "key"]})))
    ≫= (.!! "version")
    = Some (VFloat (34 # 10)).
Proof. split; vm_compute; reflexivity. Qed.

Lemma unload_missing_entry_KeyError_witness :
  let hass := Demo.hass (Ok true) in
  let entry := Demo.entry "a" in
  (async_unload_platforms hass entry PLATFORMS (world Demo.st0)
   = (1, Ok true)
   ∧ hass_data Demo.st0 !! Demo.DOMAIN = None
   ∧ hass_data Scenario.st_other !! Demo.DOMAIN
     = Some {["entry-0" := Demo.stored]}
   ∧ ({["entry-0" := Demo.stored]} : gmap string (entry_state nat))
       !! entry_id entry = None)
  ∧ async_unload_entry Demo.DOMAIN hass entry Demo.st0
    = ({| world := 1; hass_data := hass_data Demo.st0 |},
       [unload_platforms_ev (entry_id entry) PLATFORMS (Ok true)],
       Raise (KeyError Demo.DOMAIN))
  ∧ async_unload_entry Demo.DOMAIN hass entry Scenario.st_other
    = ({| world := 1; hass_data := hass_data Scenario.st_other |},
       [unload_platforms_ev (entry_id entry) PLATFORMS (Ok true)],
       Raise (KeyError (entry_id entry))).
Proof.
  intros hass entry.
  assert (async_unload_platforms hass entry PLATFORMS (world Demo.st0)
          = (1, Ok true)) as Hunload by reflexivity.
  assert (hass_data Demo.st0 !! Demo.DOMAIN = None) as Hnone
    by (vm_compute; reflexivity).
  assert (hass_data Scenario.st_other !! Demo.DOMAIN
          = Some {["entry-0" := Demo.stored]}) as Htable
    by (vm_compute; reflexivity).
  assert (({["entry-0" := Demo.stored]} : gmap string (entry_state nat))
            !! entry_id entry = None) as Hfree
    by (vm_compute; reflexivity).
  split; [by split_and!|]. split.
  - exact (proj1 (unload_missing_entry_KeyError Demo.DOMAIN hass entry
                    Demo.st0 1 Hunload) Hnone).
  - exact (proj2 (unload_missing_entry_KeyError Demo.DOMAIN hass entry
                    Scenario.st_other 1 Hunload) _ Htable Hfree).
Defined.

Lemma unload_close_raises_keeps_entry_witness :
  let e := Error "Session is closed" in
  let hass := Demo.hass (Ok true) in
  let entry := Demo.entry "a" in
  let σ := Scenario.st_stubborn in
  (async_unload_platforms hass entry PLATFORMS (world σ) = (4, Ok true)
   ∧ hass_data σ !! Demo.DOMAIN = Some {["entry-1" := Scenario.stubborn]}
   ∧ ({["entry-1" := Scenario.stubborn]} : gmap string (entry_state nat))
       !! entry_id entry = Some Scenario.stubborn
   ∧ close (entry_client Scenario.stubborn) 4 = (5, Raise e))
  ∧ async_unload_entry Demo.DOMAIN hass entry σ
    = ({| world := 5; hass_data := hass_data σ |},
       [unload_platforms_ev (entry_id entry) PLATFORMS (Ok true);
        close_ev (Raise e)],
       Raise e).
Proof.
  intros e hass entry σ.
  assert (async_unload_platforms hass entry PLATFORMS (world σ)
          = (4, Ok true)) as Hunload by reflexivity.
  assert (hass_data σ !! Demo.DOMAIN
          = Some {["entry-1" := Scenario.stubborn]}) as Htable
    by (vm_compute; reflexivity).
  assert (({["entry-1" := Scenario.stubborn]}
             : gmap string (entry_state nat))
            !! entry_id entry = Some Scenario.stubborn) as Hstored
    by (vm_compute; reflexivity).
  assert (close (entry_client Scenario.stubborn) 4 = (5, Raise e)) as Hclose
    by reflexivity.
  split; [by split_and!|].
  exact (unload_close_raises_keeps_entry Demo.DOMAIN hass entry σ 4 5 _ _ e
           Hunload Htable Hstored Hclose).
Defined.

Lemma setup_then_unload_restores_witness :
  let hass := Demo.hass (Ok true) in
  let entry := Demo.entry "a" in
  let σ := Scenario.st_other in
  let client := client_of Demo.new_client entry in
  (initialize client (world σ) = (1, Ok tt)
   ∧ async_config_entry_first_refresh hass
       (new_coordinator client (Some (1 # 2))) 1 = (2, Ok tt)
   ∧ async_forward_entry_setups hass entry PLATFORMS 2 = (3, Ok tt)
   ∧ async_unload_platforms hass entry PLATFORMS 3 = (4, Ok true)
   ∧ close client 4 = (5, Ok tt)
   ∧ hass_data σ !! Demo.DOMAIN = Some {["entry-0" := Demo.stored]}
   ∧ ({["entry-0" := Demo.stored]} : gmap string (entry_state nat))
       !! entry_id entry = None)
  ∧ bind (async_setup_entry Demo.DOMAIN Demo.new_client hass entry)
      (λ _, async_unload_entry Demo.DOMAIN hass entry) σ
    = ({| world := 5; hass_data := hass_data σ |},
       [initialize_ev (Ok tt); first_refresh_ev (Ok tt);
        forward_entry_setups_ev (entry_id entry) PLATFORMS (Ok tt);
        unload_platforms_ev (entry_id entry) PLATFORMS (Ok true);
        close_ev (Ok tt)],
       Ok true).
Proof.
  intros hass entry σ client.
  assert (initialize client (world σ) = (1, Ok tt)) as Hinit
    by (vm_compute; reflexivity).
  assert (async_config_entry_first_refresh hass
            (new_coordinator client (Some (1 # 2))) 1 = (2, Ok tt))
    as Hfirst by reflexivity.
  assert (async_forward_entry_setups hass entry PLATFORMS 2 = (3, Ok tt))
    as Hforward by reflexivity.
  assert (async_unload_platforms hass entry PLATFORMS 3 = (4, Ok true))
    as Hunload by reflexivity.
  assert (close client 4 = (5, Ok tt)) as Hclose
    by (vm_compute; reflexivity).
  assert (hass_data σ !! Demo.DOMAIN = Some {["entry-0" := Demo.stored]})
    as Htable by (vm_compute; reflexivity).
  assert (({["entry-0" := Demo.stored]} : gmap string (entry_state nat))
            !! entry_id entry = None) as Hfree
    by (vm_compute; reflexivity).
  split; [by split_and!|].
  exact (setup_then_unload_restores Demo.DOMAIN Demo.new_client hass entry σ
           1 2 3 4 5 _ Hinit Hfirst Hforward Hunload Hclose Htable Hfree).
Defined.


Example setup_keeps_other_entry :
  let σ' :=
    (async_setup_entry Demo.DOMAIN Demo.new_client (Demo.hass (Ok true))
       (Demo.entry "a") Scenario.st_other).1.1 in
  dom <$> (hass_data σ' !! Demo.DOMAIN)
  = Some (list_to_set ["entry-0"; "entry-1"]).
Proof. vm_compute; reflexivity. Qed.
